(** * ShaftGear: the shaft and gear calculation engine

    A shallow embedding of the numeric core of
    [ShaftGear/modules/shaft_calculations.py],
    [ShaftGear/modules/gear_calculations.py],
    [ShaftGear/modules/utils.py] and
    [ShaftGear/modules/material_database.py].

    Number model.  Python's [float] values are embedded as exact real
    numbers ([R]) for the shaft engine and for the velocity and geometry
    factors, and as exact rationals ([Q]) for the Lewis table, whose
    arithmetic is only [+ - * /] on decimal constants and integers.
    Rounding and overflow of binary64 are therefore outside the model,
    with one exception: module [Ranged] embeds [verify_shaft_diameter] a
    second time with the [OverflowError] of [**].  Where a theorem is
    stated for inputs within explicit bounds, the bounds are there to
    keep every intermediate result within the range of the floats.
    What Python does besides arithmetic is kept: a division by zero raises
    [ZeroDivisionError], [math.sqrt] of a negative number raises
    [ValueError], a negative base under a fractional power yields a
    [complex], a missing dictionary key raises [KeyError], a function
    that falls off its end returns [None], and [float('inf')] is a value
    of its own. *)

From Stdlib Require Import Reals Lra Lia Psatz ZArith QArith List String.
From Stdlib Require Import Ratan Machin Sorted Qreals.
Import ListNotations.

(** ** Python outcomes *)

Module Py.

Inductive exn : Set :=
| ZeroDivisionError
| ValueError
| KeyError.

Inductive result (A : Type) : Type :=
| Ok (a : A)
| Raise (e : exn).

Arguments Ok {A} a.
Arguments Raise {A} e.

Definition bind {A B : Type} (m : result A) (k : A -> result B) : result B :=
  match m with
  | Ok a => k a
  | Raise e => Raise e
  end.

Definition returns {A : Type} (m : result A) : Prop :=
  exists a, m = Ok a.

(** A Python float: a finite number or [float('inf')]. *)
Inductive pyfloat : Type :=
| Fin (r : R)
| PosInf.

(** What [x ** y] can produce from two floats: a float, or a complex
    number when the base is negative and the exponent fractional. *)
Inductive pynum : Type :=
| PyFloat (r : R)
| PyComplex (re im : R).

Local Open Scope R_scope.

(** [x / y] on floats. *)
Definition div (x y : R) : result R :=
  if Req_dec_T y 0 then Raise ZeroDivisionError else Ok (x / y).

(** [math.sqrt(x)]. *)
Definition sqrt (x : R) : result R :=
  if Rlt_dec x 0 then Raise ValueError else Ok (R_sqrt.sqrt x).

(** [x ** (1/3)]: the exponent is positive and not an integer, so a
    zero base gives zero, a positive base the real power, and a
    negative base the principal complex root. *)
Definition pow_third (x : R) : pynum :=
  if Req_dec_T x 0 then PyFloat 0
  else if Rlt_dec 0 x then PyFloat (Rpower x (1 / 3))
  else PyComplex (Rpower (- x) (1 / 3) * cos (PI / 3))
                 (Rpower (- x) (1 / 3) * sin (PI / 3)).

(** [z * c] for a float [c]. *)
Definition scale (z : pynum) (c : R) : pynum :=
  match z with
  | PyFloat r => PyFloat (r * c)
  | PyComplex re im => PyComplex (re * c) (im * c)
  end.

(** [math.radians(x)]. *)
Definition radians (x : R) : R := x * (PI / 180).

End Py.

Import Py.

Declare Scope py_scope.
Notation "x <- m ;; k" := (bind m (fun x => k))
  (at level 61, m at next level, right associativity) : py_scope.
Open Scope py_scope.

(** ** material_database.py *)

Module Materials.

Local Open Scope R_scope.
Local Open Scope string_scope.

Record material : Type := mk_material {
  yield_strength : R;
  ultimate_strength : R;
  elastic_modulus : R;
  poisson_ratio : R;
  density : R;
  fatigue_strength : R;
  hardness_hb : R;
  category : string
}.

Definition MATERIALS_DATABASE : list (string * material) :=
  [ ("AISI 1020 Steel",
     mk_material 250e6 380e6 200e9 0.29 7850 190e6 111 "Carbon Steel");
    ("AISI 1045 Steel",
     mk_material 310e6 565e6 200e9 0.29 7850 282e6 163 "Carbon Steel");
    ("AISI 4140 Steel",
     mk_material 415e6 655e6 200e9 0.29 7850 380e6 197 "Alloy Steel");
    ("AISI 4340 Steel",
     mk_material 470e6 745e6 200e9 0.29 7850 425e6 217 "Alloy Steel");
    ("AISI 316 Stainless Steel",
     mk_material 205e6 515e6 200e9 0.30 8000 240e6 149 "Stainless Steel");
    ("AISI 17-4 PH Stainless Steel",
     mk_material 1170e6 1310e6 196e9 0.27 7750 550e6 388
                 "Precipitation Hardening Steel");
    ("Aluminum 6061-T6",
     mk_material 276e6 310e6 69e9 0.33 2700 96e6 95 "Aluminum Alloy");
    ("Aluminum 7075-T6",
     mk_material 503e6 572e6 71.7e9 0.33 2810 159e6 150 "Aluminum Alloy");
    ("Titanium Ti-6Al-4V",
     mk_material 880e6 950e6 114e9 0.32 4430 510e6 334 "Titanium Alloy");
    ("Brass C36000",
     mk_material 124e6 310e6 100e9 0.33 8500 110e6 85 "Copper Alloy");
    ("Bronze C93200",
     mk_material 172e6 310e6 103e9 0.34 8800 124e6 75 "Copper Alloy");
    ("Cast Iron ASTM A48 Class 30",
     mk_material 200e6 207e6 100e9 0.26 7200 68e6 187 "Cast Iron");
    ("Ductile Iron ASTM A536 65-45-12",
     mk_material 310e6 448e6 169e9 0.29 7100 220e6 149 "Cast Iron");
    ("Inconel 718",
     mk_material 1240e6 1380e6 200e9 0.29 8190 620e6 388 "Superalloy");
    ("Tool Steel D2",
     mk_material 520e6 690e6 210e9 0.27 7700 345e6 217 "Tool Steel") ].

(** [dict.get(key)] on an insertion-ordered dictionary with distinct keys. *)
Fixpoint dict_get {A : Type} (key : string) (d : list (string * A))
  : option A :=
  match d with
  | [] => None
  | (k, v) :: rest => if String.eqb key k then Some v else dict_get key rest
  end.

(** The record every unknown name falls back to; [MATERIALS_DATABASE]
    holds it, so the subscript in the source never raises. *)
Definition default_material : material :=
  mk_material 310e6 565e6 200e9 0.29 7850 282e6 163 "Carbon Steel".

Definition get_material_properties (material_name : string) : material :=
  match dict_get material_name MATERIALS_DATABASE with
  | Some props => props
  | None =>
      match dict_get "AISI 1045 Steel" MATERIALS_DATABASE with
      | Some props => props
      | None => default_material
      end
  end.

Definition get_all_materials : list string := map fst MATERIALS_DATABASE.

End Materials.

Import Materials.

(** ** shaft_calculations.py and utils.py *)

Module Shaft.

Local Open Scope R_scope.


Section HollowSearch.

Variables (equivalent_moment allowable_stress inner_diameter : R).

(** Stress of one candidate, as the loop body computes it. *)
Definition candidate_stress (diameter : R) : result R :=
  let J := (PI / 32) * (diameter ^ 4 - inner_diameter ^ 4) in
  section_modulus <- div J (diameter / 2) ;;
  div equivalent_moment section_modulus.

(** [for _ in range(n)]: the loop of the hollow branch, with [n]
    iterations left and the current candidate [diameter]. *)
Fixpoint hollow_search (n : nat) (diameter : R) : result R :=
  match n with
  | O => Ok diameter
  | S n' =>
      stress <- candidate_stress diameter ;;
      if Rle_dec stress allowable_stress then Ok diameter
      else hollow_search n' (diameter + 0.1)
  end.

(** The same loop with a ghost log of the candidates whose stress was
    evaluated, oldest first. *)
Fixpoint hollow_search_log (n : nat) (diameter : R) (tried : list R)
  : result (R * list R) :=
  match n with
  | O => Ok (diameter, tried)
  | S n' =>
      stress <- candidate_stress diameter ;;
      if Rle_dec stress allowable_stress
      then Ok (diameter, tried ++ [diameter])
      else hollow_search_log n' (diameter + 0.1) (tried ++ [diameter])
  end.

End HollowSearch.

Definition max_iterations : nat := 100.

(** The candidate reached from [start] after [j] increments of 0.1. *)
Definition candidate (start : R) (j : nat) : R := start + INR j * 0.1.

(** A material record whose yield strength is zero, as a caller may
    pass it; the catalogue holds none. *)
Definition strengthless : material :=
  mk_material 0 0 200e9 0.29 7850 0 0 "Carbon Steel".

Definition calculate_required_diameter
    (torque bending_moment axial_force : R) (material_props : material)
    (safety_factor inner_diameter : R) : result pynum :=
  allowable_stress <- div (yield_strength material_props) safety_factor ;;
  equivalent_moment <- Py.sqrt (bending_moment ^ 2 + (0.75 * torque) ^ 2) ;;
  if Req_dec_T inner_diameter 0 then
    q <- div (32 * equivalent_moment) (PI * allowable_stress) ;;
    Ok (scale (pow_third q) 1000)
  else
    diameter <- hollow_search equivalent_moment allowable_stress
                  inner_diameter max_iterations (inner_diameter + 10) ;;
    Ok (PyFloat (diameter * 1000)).

(** Section properties [(area, I, J)] of the cross-section, in metres
    ([I] is written [I_] below: [I] is taken in Rocq). *)
Definition section_properties (outer_diameter inner_diameter : R) : R * R * R :=
  if Req_dec_T inner_diameter 0 then
    (PI * (outer_diameter / 2) ^ 2,
     PI * outer_diameter ^ 4 / 64,
     PI * outer_diameter ^ 4 / 32)
  else
    (PI * ((outer_diameter / 2) ^ 2 - (inner_diameter / 2) ^ 2),
     PI * (outer_diameter ^ 4 - inner_diameter ^ 4) / 64,
     PI * (outer_diameter ^ 4 - inner_diameter ^ 4) / 32).

(** The body of [verify_shaft_diameter] up to [equivalent_stress]. *)
Definition equivalent_stress
    (outer_diameter inner_diameter torque bending_moment axial_force : R)
  : result R :=
  let outer_diameter := outer_diameter / 1000 in
  let inner_diameter := inner_diameter / 1000 in
  let '(area, I_, J) := section_properties outer_diameter inner_diameter in
  axial_stress <-
    (if Rlt_dec 0 area then div axial_force area else Ok 0) ;;
  bending_stress <-
    (if Rlt_dec 0 I_ then div (bending_moment * (outer_diameter / 2)) I_
     else Ok 0) ;;
  shear_stress <-
    (if Rlt_dec 0 J then div (torque * (outer_diameter / 2)) J else Ok 0) ;;
  Py.sqrt ((axial_stress + bending_stress) ^ 2 + 3 * shear_stress ^ 2).

Definition verify_shaft_diameter
    (outer_diameter inner_diameter torque bending_moment axial_force : R)
    (material_props : material) : result pyfloat :=
  sigma <- equivalent_stress outer_diameter inner_diameter torque
             bending_moment axial_force ;;
  if Rlt_dec 0 sigma then
    sf <- div (yield_strength material_props) sigma ;; Ok (Fin sf)
  else Ok PosInf.

End Shaft.

(** ** gear_calculations.py *)

Module Gear.

(** *** The Lewis form factor (exact rational arithmetic) *)

Local Open Scope Q_scope.

Definition lewis_factors : list (Z * Q) :=
  [ (12%Z, 0.245); (13%Z, 0.261); (14%Z, 0.277); (15%Z, 0.290);
    (16%Z, 0.296); (17%Z, 0.303); (18%Z, 0.309); (19%Z, 0.314);
    (20%Z, 0.322); (22%Z, 0.331); (24%Z, 0.337); (26%Z, 0.346);
    (28%Z, 0.353); (30%Z, 0.359); (34%Z, 0.371); (38%Z, 0.384);
    (43%Z, 0.397); (50%Z, 0.409); (60%Z, 0.422); (75%Z, 0.435);
    (100%Z, 0.447); (150%Z, 0.460); (300%Z, 0.472) ].

(** [key in d] and [d[key]] on a dictionary with integer keys. *)
Fixpoint lookup (key : Z) (d : list (Z * Q)) : option Q :=
  match d with
  | [] => None
  | (k, v) :: rest => if (key =? k)%Z then Some v else lookup key rest
  end.

Definition subscript (d : list (Z * Q)) (key : Z) : result Q :=
  match lookup key d with
  | Some v => Ok v
  | None => Raise KeyError
  end.

(** [sorted(...)] on integers. *)
Fixpoint insert_sorted (x : Z) (l : list Z) : list Z :=
  match l with
  | [] => [x]
  | y :: rest => if (x <=? y)%Z then x :: l else y :: insert_sorted x rest
  end.

Definition sorted (l : list Z) : list Z := fold_right insert_sorted [] l.

(** [min(...)] and [max(...)] of a list; both raise on an empty one. *)
Definition list_min (l : list Z) : result Z :=
  match l with
  | [] => Raise ValueError
  | x :: rest => Ok (fold_left Z.min rest x)
  end.

Definition list_max (l : list Z) : result Z :=
  match l with
  | [] => Raise ValueError
  | x :: rest => Ok (fold_left Z.max rest x)
  end.

(** [x / y] where the rational model stands for a float. *)
Definition divQ (x y : Q) : result Q :=
  if Qeq_bool y 0 then Raise ZeroDivisionError else Ok (x / y).

(** The interpolation loop over adjacent keys
    [teeth_list[i], teeth_list[i + 1]]; [Ok None] is the function
    falling off its end. *)
Fixpoint interpolate (teeth : Z) (teeth_list : list Z) : result (option Q) :=
  match teeth_list with
  | t1 :: ((t2 :: _) as rest) =>
      if ((t1 <=? teeth) && (teeth <=? t2))%Z%bool then
        y1 <- subscript lewis_factors t1 ;;
        y2 <- subscript lewis_factors t2 ;;
        r <- divQ ((y2 - y1) * inject_Z (teeth - t1)) (inject_Z (t2 - t1)) ;;
        Ok (Some (y1 + r))
      else interpolate teeth rest
  | _ => Ok None
  end.

Definition get_lewis_factor (teeth : Z) : result (option Q) :=
  match lookup teeth lewis_factors with
  | Some y => Ok (Some y)
  | None =>
      let teeth_list := sorted (map fst lewis_factors) in
      lo <- list_min teeth_list ;;
      if (teeth <? lo)%Z then
        y <- subscript lewis_factors lo ;; Ok (Some y)
      else
        hi <- list_max teeth_list ;;
        if (teeth >? hi)%Z then
          y <- subscript lewis_factors hi ;; Ok (Some y)
        else interpolate teeth teeth_list
  end.

(** *** Velocity and geometry factors (real arithmetic) *)

Local Open Scope R_scope.

(** [Kv] as [show_tooth_strength_analysis] computes it from the
    pitch-line velocity [v]. *)
Definition tooth_strength_Kv (v : R) : result R :=
  if Rle_dec v 5 then Ok 1.0
  else if Rle_dec v 10 then
    s <- Py.sqrt v ;; div (5.56 + s) 5.56
  else
    s <- Py.sqrt v ;; div (5.56 + s) 5.56.

(** [Kv] as [show_contact_stress_analysis] computes it. *)
Definition contact_stress_Kv (v : R) : result R :=
  if Rle_dec v 5 then Ok 1.0
  else if Rle_dec v 10 then
    s <- Py.sqrt v ;; div (5.56 + s) 5.56
  else
    s <- Py.sqrt v ;; div (5.56 + s) 5.56.

(** The simplified formula for the geometry factor, before the guard. *)
Definition geometry_formula (helix_angle gear_ratio : R) : result R :=
  r <- div gear_ratio (gear_ratio + 1) ;;
  Ok ((cos (radians helix_angle) * sin (radians 20)) / 2 * r).

(** The geometry factor [I] that the contact-stress formula divides by. *)
Definition contact_geometry_factor (helix_angle gear_ratio : R) : result R :=
  I_ <- geometry_formula helix_angle gear_ratio ;;
  if Rle_dec I_ 0 then Ok 0.1 else Ok I_.

(** [gear_ratio = gear_teeth / pinion_teeth] on two integers. *)
Definition gear_ratio_of (gear_teeth pinion_teeth : Z) : result R :=
  div (IZR gear_teeth) (IZR pinion_teeth).

(** Decidable check that the factor does not drop from [12 + n] teeth
    to [13 + n] teeth. *)
Definition lewis_step_ok (n : nat) : bool :=
  let t := (12 + Z.of_nat n)%Z in
  match get_lewis_factor t, get_lewis_factor (t + 1)%Z with
  | Ok (Some a), Ok (Some b) => Qle_bool a b
  | _, _ => false
  end.

(** Two entries that follow one another in a table. *)
Definition adjacent {A : Type} (a b : A) (l : list A) : Prop :=
  exists l1 l2, l = l1 ++ a :: b :: l2.

End Gear.

(** ** Outcomes that also cover [TypeError] *)

Module PyX.

Local Open Scope R_scope.

Inductive error : Set :=
| Builtin (e : exn)
| TypeError.

Inductive outcome (A : Type) : Type :=
| Done (a : A)
| Fail (e : error).

Arguments Done {A} a.
Arguments Fail {A} e.

Definition bindx {A B : Type} (m : outcome A) (k : A -> outcome B)
  : outcome B :=
  match m with
  | Done a => k a
  | Fail e => Fail e
  end.

Definition lift {A : Type} (m : result A) : outcome A :=
  match m with
  | Ok a => Done a
  | Raise e => Fail (Builtin e)
  end.

(** [x ** y] on two floats.  A zero exponent gives 1; a zero base gives 0
    for a positive exponent and raises for a negative one; a negative
    base gives a float for an integral exponent and a complex number
    otherwise. *)
Definition pow (x y : R) : result pynum :=
  if Req_dec_T y 0 then Ok (PyFloat 1)
  else if Req_dec_T x 0 then
    if Rlt_dec y 0 then Raise ZeroDivisionError else Ok (PyFloat 0)
  else if Rlt_dec 0 x then Ok (PyFloat (Rpower x y))
  else if Req_dec_T y (IZR (Int_part y)) then
    Ok (PyFloat (powerRZ x (Int_part y)))
  else Ok (PyComplex (Rpower (- x) y * cos (PI * y))
                     (Rpower (- x) y * sin (PI * y))).

(** [a >= b] where [a] may be [float('inf')] and [b] is finite. *)
Definition ge_float (a : pyfloat) (b : R) : bool :=
  match a with
  | Fin r => if Rle_dec b r then true else false
  | PosInf => true
  end.

(** The order of floats with [float('inf')] on top. *)
Definition pyfloat_le (a b : pyfloat) : Prop :=
  match a, b with
  | _, PosInf => True
  | PosInf, Fin _ => False
  | Fin x, Fin y => x <= y
  end.

End PyX.

Import PyX.

Notation "x <~ m ;; k" := (bindx m (fun x => k))
  (at level 61, m at next level, right associativity) : py_scope.

(** ** utils.py: the remaining functions *)

Module Utils.

Local Open Scope string_scope.

(** [d.get(key, default)]. *)
Definition get_default {A : Type} (d : list (string * A)) (key : string)
    (default : A) : A :=
  match dict_get key d with
  | Some v => v
  | None => default
  end.

(** [d[key]] on a dictionary with string keys. *)
Definition item {A : Type} (d : list (string * A)) (key : string)
  : result A :=
  match dict_get key d with
  | Some v => Ok v
  | None => Raise KeyError
  end.

(** *** Unit conversion (exact rational arithmetic) *)

Definition conversion_factors : list (string * Q) :=
  [ ("mm", 0.001%Q); ("cm", 0.01%Q); ("m", 1.0%Q); ("in", 0.0254%Q);
    ("ft", 0.3048%Q);
    ("N", 1.0%Q); ("kN", 1000.0%Q); ("lbf", 4.448%Q); ("kgf", 9.807%Q);
    ("Pa", 1.0%Q); ("MPa", 1e6%Q); ("GPa", 1e9%Q); ("psi", 6895%Q);
    ("ksi", 6.895e6%Q);
    ("W", 1.0%Q); ("kW", 1000.0%Q); ("hp", 745.7%Q);
    ("Nm", 1.0%Q); ("kNm", 1000.0%Q); ("lbft", 1.356%Q); ("lbin", 0.113%Q) ].

Definition convert_units (value : Q) (from_unit to_unit : string)
  : result Q :=
  match dict_get from_unit conversion_factors,
        dict_get to_unit conversion_factors with
  | Some f, Some t =>
      let base_value := (value * f)%Q in
      Gear.divQ base_value t
  | _, _ => Raise ValueError
  end.

(** *** Input validation (exact rational arithmetic) *)

Definition validate_engineering_inputs (inputs : list (string * Q))
    (calculation_type : string) : list string :=
  if calculation_type =? "shaft_design" then
    (if Qle_bool 0 (get_default inputs "torque" 0%Q) then []
     else ["Torque cannot be negative"])
    ++ (if Qle_bool (get_default inputs "diameter" 0%Q) 0 then
          ["Diameter must be positive"] else [])
    ++ (if Qle_bool 1 (get_default inputs "safety_factor" 0%Q) then []
        else ["Safety factor must be at least 1.0"])
  else if calculation_type =? "gear_design" then
    (if Qle_bool (get_default inputs "module" 0%Q) 0 then
       ["Module must be positive"] else [])
    ++ (if Qle_bool 6 (get_default inputs "teeth" 0%Q) then []
        else ["Number of teeth must be at least 6"])
    ++ (if Qle_bool (get_default inputs "power" 0%Q) 0 then
          ["Power must be positive"] else [])
  else [].

Local Open Scope R_scope.

(** *** Stress measures *)

Definition calculate_von_mises_stress
    (sigma_x sigma_y sigma_z tau_xy tau_xz tau_yz : R) : result R :=
  Py.sqrt (0.5 * ((sigma_x - sigma_y) ^ 2 + (sigma_y - sigma_z) ^ 2
                  + (sigma_z - sigma_x) ^ 2)
           + 3 * (tau_xy ^ 2 + tau_xz ^ 2 + tau_yz ^ 2)).

(** Returns [(sigma_1, sigma_2, theta_p)]. *)
Definition calculate_principal_stresses (sigma_x sigma_y tau_xy : R)
  : result (R * R * R) :=
  let avg_stress := (sigma_x + sigma_y) / 2 in
  radius <- Py.sqrt (((sigma_x - sigma_y) / 2) ^ 2 + tau_xy ^ 2) ;;
  let sigma_1 := avg_stress + radius in
  let sigma_2 := avg_stress - radius in
  theta_p <-
    (if Req_dec_T (sigma_x - sigma_y) 0 then
       Ok (if Rlt_dec 0 tau_xy then PI / 4 else - PI / 4)
     else
       q <- div (2 * tau_xy) (sigma_x - sigma_y) ;;
       Ok (0.5 * atan q)) ;;
  Ok (sigma_1, sigma_2, theta_p).

(** *** Fatigue *)

(** [endurance_limit] is [None] when the argument is left out. *)
Definition calculate_fatigue_life
    (stress_amplitude ultimate_strength yield_strength : R)
    (endurance_limit : option R) : outcome pyfloat :=
  let endurance_limit :=
    match endurance_limit with
    | None => 0.5 * ultimate_strength
    | Some e => e
    end in
  if Rle_dec stress_amplitude endurance_limit then Done PosInf
  else if Rlt_dec yield_strength stress_amplitude then Done (Fin 1)
  else
    let A := 0.9 * ultimate_strength in
    let b := -0.12 in
    ratio <~ lift (div stress_amplitude A) ;;
    e <~ lift (div 1 b) ;;
    N <~ lift (PyX.pow ratio e) ;;
    match N with
    | PyFloat n => Done (Fin (if Rlt_dec 1 n then n else 1))
    | PyComplex _ _ => Fail TypeError
    end.

(** The coefficients [(a, b)] of each surface finish. *)
Definition finish_factors : list (string * (R * R)) :=
  [ ("mirror_polished", (1.58, -0.085));
    ("polished", (4.51, -0.265));
    ("machined", (4.51, -0.265));
    ("hot_rolled", (57.7, -0.718));
    ("as_forged", (272, -0.995)) ].

Definition calculate_surface_finish_factor (surface_finish : string)
    (ultimate_strength : R) : outcome R :=
  let surface_finish :=
    match dict_get surface_finish finish_factors with
    | Some _ => surface_finish
    | None => "machined"
    end in
  factors <~ lift (item finish_factors surface_finish) ;;
  let Sut_ksi := ultimate_strength / 6.895e6 in
  p <~ lift (PyX.pow Sut_ksi (snd factors)) ;;
  match p with
  | PyFloat p =>
      let Ka := fst factors * p in
      Done (if Rlt_dec 1.0 Ka then 1.0 else Ka)
  | PyComplex _ _ => Fail TypeError
  end.

(** Every base raised to a power below is positive by the test that
    selects its branch, where [**] is the real power. *)
Definition calculate_size_factor (diameter_mm : R) (loading_type : string)
  : R :=
  let diameter_in := diameter_mm / 25.4 in
  if ((loading_type =? "bending") || (loading_type =? "torsion"))%bool then
    if Rle_dec diameter_in 0.3 then 1.0
    else if Rle_dec diameter_in 2.0 then
      Rpower (diameter_in / 0.3) (-0.107)
    else if Rle_dec diameter_in 10.0 then
      0.91 * Rpower diameter_in (-0.157)
    else 0.91 * Rpower 10.0 (-0.157)
  else 1.0.

(** *** Stress concentration *)

(** The shoulder formula applied, as its only call applies it, to
    [max(r_d_ratio, 0.01)] and [max(D_d_ratio, 1.1)]: both bases under
    [** 0.5] are then positive, where [**] is the real power. *)
Definition shoulder_formula_clamped (r_d_ratio D_d_ratio : R) : result R :=
  let r := Rmax r_d_ratio 0.01 in
  let D := Rmax D_d_ratio 1.1 in
  q <- div (0.25 * Rpower (D - 1) 0.5) (Rpower r 0.5) ;;
  Ok (1 + q).

Definition hole_formula (d_D_ratio : R) : R :=
  3 - 3.13 * d_D_ratio + 3.66 * d_D_ratio ^ 2 - 1.53 * d_D_ratio ^ 3.

Definition calculate_stress_concentration_factor (geometry_type : string)
    (dimensions : list (string * R)) : result R :=
  if geometry_type =? "shaft_with_shoulder" then
    r_d_ratio <- div (get_default dimensions "fillet_radius" 1)
                     (get_default dimensions "small_diameter" 10) ;;
    D_d_ratio <- div (get_default dimensions "large_diameter" 20)
                     (get_default dimensions "small_diameter" 10) ;;
    shoulder_formula_clamped r_d_ratio D_d_ratio
  else if geometry_type =? "shaft_with_keyway" then Ok 2.0
  else if geometry_type =? "shaft_with_hole" then
    d_D_ratio <- div (get_default dimensions "hole_diameter" 5)
                     (get_default dimensions "shaft_diameter" 20) ;;
    Ok (hole_formula (Rmin d_D_ratio 0.5))
  else Ok 1.0.

End Utils.

(** ** material_database.py: filtering *)

Module Catalogue.

Definition get_materials_by_category (category : string) : list string :=
  map fst
    (filter (fun entry => String.eqb (Materials.category (snd entry)) category)
       MATERIALS_DATABASE).

End Catalogue.

(** ** shaft_calculations.py: the analysis pages

    Each page reads the record that the design page stored and computes
    the figures it then displays; the functions below are those
    computations, with the record as their argument. *)

Module ShaftPages.

Local Open Scope R_scope.

(** [st.session_state.shaft_params], without the material's name. *)
Record shaft_params : Type := mk_shaft_params {
  torque : R;
  bending_moment : R;
  axial_force : R;
  shaft_length : R;
  outer_diameter : R;
  inner_diameter : R;
  material_props : material;
  target_safety_factor : R
}.

Record stress_report : Type := mk_stress_report {
  axial_stress : R;
  bending_stress : R;
  shear_stress : R;
  equivalent_stress : R;
  safety_factor : pyfloat;
  meets_requirements : bool
}.

(** The figures of [show_stress_analysis]. *)
Definition stress_analysis (params : shaft_params) : result stress_report :=
  let outer_diameter := outer_diameter params / 1000 in
  let inner_diameter := inner_diameter params / 1000 in
  let '(area, I_, J) :=
    Shaft.section_properties outer_diameter inner_diameter in
  axial_stress <-
    (if Rlt_dec 0 area then div (axial_force params) area else Ok 0) ;;
  bending_stress <-
    (if Rlt_dec 0 I_ then
       div (bending_moment params * (outer_diameter / 2)) I_
     else Ok 0) ;;
  shear_stress <-
    (if Rlt_dec 0 J then div (torque params * (outer_diameter / 2)) J
     else Ok 0) ;;
  equivalent_stress <-
    Py.sqrt ((axial_stress + bending_stress) ^ 2 + 3 * shear_stress ^ 2) ;;
  safety_factor <-
    (if Rlt_dec 0 equivalent_stress then
       sf <- div (yield_strength (material_props params)) equivalent_stress ;;
       Ok (Fin sf)
     else Ok PosInf) ;;
  Ok (mk_stress_report axial_stress bending_stress shear_stress
        equivalent_stress safety_factor
        (ge_float safety_factor (target_safety_factor params))).

Record deflection_report : Type := mk_deflection_report {
  bending_deflection : R;
  torsional_angle : R;
  torsional_deflection : R;
  bending_limit : R;
  within_limit : bool
}.

(** The figures of [show_deflection_analysis]. *)
Definition deflection_analysis (params : shaft_params)
  : result deflection_report :=
  let outer_diameter := outer_diameter params / 1000 in
  let inner_diameter := inner_diameter params / 1000 in
  let length := shaft_length params / 1000 in
  let E := elastic_modulus (material_props params) in
  G <- div E (2 * (1 + poisson_ratio (material_props params))) ;;
  let '(I_, J) :=
    if Req_dec_T inner_diameter 0 then
      (PI * outer_diameter ^ 4 / 64, PI * outer_diameter ^ 4 / 32)
    else
      (PI * (outer_diameter ^ 4 - inner_diameter ^ 4) / 64,
       PI * (outer_diameter ^ 4 - inner_diameter ^ 4) / 32) in
  force_equivalent <- div (bending_moment params * 4) length ;;
  bending_deflection <-
    (if Rlt_dec 0 I_ then div (force_equivalent * length ^ 3) (48 * E * I_)
     else Ok 0) ;;
  torsional_angle <-
    (if Rlt_dec 0 J then div (torque params * length) (G * J) else Ok 0) ;;
  let torsional_deflection := torsional_angle * (outer_diameter / 2) in
  let bending_limit := length / 250 in
  Ok (mk_deflection_report bending_deflection torsional_angle
        torsional_deflection bending_limit
        (if Rle_dec bending_deflection bending_limit then true else false)).

End ShaftPages.

(** ** gear_calculations.py: the design and analysis pages *)

Module GearPages.

Local Open Scope R_scope.

(** [st.session_state.gear_params]. *)
Record gear_params : Type := mk_gear_params {
  gear_type : string;
  pinion_teeth : Z;
  gear_teeth : Z;
  module : R;
  helix_angle : R;
  face_width : R;
  power : R;
  pinion_rpm : R;
  gear_ratio : R;
  gear_rpm : R;
  pinion_pitch_diameter : R;
  gear_pitch_diameter : R;
  center_distance : R;
  pinion_torque : R;
  gear_torque : R;
  pitch_line_velocity : R;
  pinion_material : string;
  gear_material : string;
  pinion_props : material;
  gear_props : material;
  safety_factor_bending : R;
  safety_factor_contact : R;
  service_factor : R;
  quality_factor : Z
}.

(** The computation behind the button of [show_basic_gear_design], from
    the values of its widgets. *)
Definition basic_gear_design
    (gear_type : string) (pinion_teeth gear_teeth : Z)
    (module helix_angle face_width power pinion_rpm : R)
    (pinion_material gear_material : string)
    (safety_factor_bending safety_factor_contact service_factor : R)
    (quality_factor : Z) : result gear_params :=
  let pinion_props := get_material_properties pinion_material in
  let gear_props := get_material_properties gear_material in
  gear_ratio <- div (IZR gear_teeth) (IZR pinion_teeth) ;;
  gear_rpm <- div pinion_rpm gear_ratio ;;
  let pinion_pitch_diameter := module * IZR pinion_teeth in
  let gear_pitch_diameter := module * IZR gear_teeth in
  let center_distance := (pinion_pitch_diameter + gear_pitch_diameter) / 2 in
  pinion_torque <- div (power * 1000 * 60) (2 * PI * pinion_rpm) ;;
  let gear_torque := pinion_torque * gear_ratio in
  let pitch_line_velocity :=
    (PI * pinion_pitch_diameter * pinion_rpm) / (60 * 1000) in
  Ok (mk_gear_params gear_type pinion_teeth gear_teeth module helix_angle
        face_width power pinion_rpm gear_ratio gear_rpm
        pinion_pitch_diameter gear_pitch_diameter center_distance
        pinion_torque gear_torque pitch_line_velocity
        pinion_material gear_material pinion_props gear_props
        safety_factor_bending safety_factor_contact service_factor
        quality_factor).

Record bending_results : Type := mk_bending_results {
  pinion_lewis_factor : R;
  gear_lewis_factor : R;
  pinion_bending_stress : R;
  gear_bending_stress : R;
  pinion_safety_bending : R;
  gear_safety_bending : R;
  dynamic_factor : R
}.

(** A Lewis factor as an operand of float arithmetic: [None] there is a
    [TypeError]. *)
Definition as_operand (y : option Q) : outcome R :=
  match y with
  | Some q => Done (Q2R q)
  | None => Fail TypeError
  end.

(** The figures of [show_tooth_strength_analysis]. *)
Definition tooth_strength_analysis (params : gear_params)
  : outcome bending_results :=
  pinion_lewis <~ lift (Gear.get_lewis_factor (pinion_teeth params)) ;;
  gear_lewis <~ lift (Gear.get_lewis_factor (gear_teeth params)) ;;
  Kv <~ lift (Gear.tooth_strength_Kv (pitch_line_velocity params)) ;;
  let Ks := 1.0 in
  Wt <~ lift (div (pinion_torque params * 2000)
                  (pinion_pitch_diameter params)) ;;
  Yp <~ as_operand pinion_lewis ;;
  pinion_bending_stress <~
    lift (div (Wt * service_factor params * Kv * Ks)
              (face_width params * module params * Yp)) ;;
  Yg <~ as_operand gear_lewis ;;
  gear_bending_stress <~
    lift (div (Wt * service_factor params * Kv * Ks)
              (face_width params * module params * Yg)) ;;
  pinion_safety_bending <~
    lift (div (yield_strength (pinion_props params) / 1e6)
              (pinion_bending_stress / 1e6)) ;;
  gear_safety_bending <~
    lift (div (yield_strength (gear_props params) / 1e6)
              (gear_bending_stress / 1e6)) ;;
  Done (mk_bending_results Yp Yg pinion_bending_stress gear_bending_stress
          pinion_safety_bending gear_safety_bending Kv).

Record contact_results : Type := mk_contact_results {
  transmitted_load : R;
  geometry_factor : R;
  elastic_coefficient : R;
  contact_stress : R;
  pinion_safety_contact : R;
  gear_safety_contact : R
}.

(** The elastic coefficient [Cp] of two materials. *)
Definition elastic_coefficient_of (E1 nu1 E2 nu2 : R) : result R :=
  c1 <- div (1 - nu1 ^ 2) E1 ;;
  c2 <- div (1 - nu2 ^ 2) E2 ;;
  q <- div 1 (PI * (c1 + c2)) ;;
  Py.sqrt q.

(** The figures of [show_contact_stress_analysis]. *)
Definition contact_stress_analysis (params : gear_params)
  : result contact_results :=
  Wt <- div (pinion_torque params * 2000) (pinion_pitch_diameter params) ;;
  Kv <- Gear.contact_stress_Kv (pitch_line_velocity params) ;;
  I_ <- Gear.contact_geometry_factor (helix_angle params) (gear_ratio params) ;;
  Cp <- elastic_coefficient_of
          (elastic_modulus (pinion_props params))
          (poisson_ratio (pinion_props params))
          (elastic_modulus (gear_props params))
          (poisson_ratio (gear_props params)) ;;
  q <- div (Wt * service_factor params * Kv)
           (face_width params * pinion_pitch_diameter params * I_) ;;
  root <- Py.sqrt q ;;
  let contact_stress := Cp * root in
  let pinion_contact_strength :=
    2.8 * yield_strength (pinion_props params) / 1e6 in
  let gear_contact_strength :=
    2.8 * yield_strength (gear_props params) / 1e6 in
  pinion_safety_contact <-
    div pinion_contact_strength (contact_stress / 1e6) ;;
  gear_safety_contact <-
    div gear_contact_strength (contact_stress / 1e6) ;;
  Ok (mk_contact_results Wt I_ Cp contact_stress
        pinion_safety_contact gear_safety_contact).

(** The same record with the materials of pinion and gear exchanged. *)
Definition swap_materials (p : gear_params) : gear_params :=
  mk_gear_params (gear_type p) (pinion_teeth p) (gear_teeth p) (module p)
    (helix_angle p) (face_width p) (power p) (pinion_rpm p) (gear_ratio p)
    (gear_rpm p) (pinion_pitch_diameter p) (gear_pitch_diameter p)
    (center_distance p) (pinion_torque p) (gear_torque p)
    (pitch_line_velocity p) (gear_material p) (pinion_material p)
    (gear_props p) (pinion_props p) (safety_factor_bending p)
    (safety_factor_contact p) (service_factor p) (quality_factor p).

End GearPages.

(** ** shaft_calculations.py: verify_shaft_diameter within the range of
       the floats

    The embedding of [verify_shaft_diameter] above reads Python's [**]
    as the exact power.  On the floats of the source [x ** n] raises
    [OverflowError] when the result is too large to be one.  The second
    embedding below keeps that outcome; it is otherwise the same:
    rounding and underflow are not modelled. *)

Module PyR.

Local Open Scope R_scope.

Inductive fault : Set :=
| Raised (e : exn)
| OverflowError.

Inductive run (A : Type) : Type :=
| Returned (a : A)
| Faulted (f : fault).

Arguments Returned {A} a.
Arguments Faulted {A} f.

Definition bindr {A B : Type} (m : run A) (k : A -> run B) : run B :=
  match m with
  | Returned a => k a
  | Faulted f => Faulted f
  end.

Definition of_result {A : Type} (m : result A) : run A :=
  match m with
  | Ok a => Returned a
  | Raise e => Faulted (Raised e)
  end.

(** The least magnitude that rounds to infinity instead of to a float:
    [2^1024 - 2^970], half a unit in the last place above the largest
    float. *)
Definition overflow_threshold : R := (2 - / 2 ^ 53) * 2 ^ 1023.

(** [x ** n] for a float [x] and an integer literal [n]. *)
Definition pow_int (x : R) (n : nat) : run R :=
  if Rlt_dec (Rabs (x ^ n)) overflow_threshold then Returned (x ^ n)
  else Faulted OverflowError.

End PyR.

Import PyR.

Notation "x <~~ m ;; k" := (bindr m (fun x => k))
  (at level 61, m at next level, right associativity) : py_scope.

Module Ranged.

Import Materials.
Local Open Scope R_scope.

Definition section_properties (outer_diameter inner_diameter : R)
  : run (R * R * R) :=
  if Req_dec_T inner_diameter 0 then
    r2 <~~ pow_int (outer_diameter / 2) 2 ;;
    o4 <~~ pow_int outer_diameter 4 ;;
    o4' <~~ pow_int outer_diameter 4 ;;
    Returned (PI * r2, PI * o4 / 64, PI * o4' / 32)
  else
    r2 <~~ pow_int (outer_diameter / 2) 2 ;;
    s2 <~~ pow_int (inner_diameter / 2) 2 ;;
    o4 <~~ pow_int outer_diameter 4 ;;
    i4 <~~ pow_int inner_diameter 4 ;;
    o4' <~~ pow_int outer_diameter 4 ;;
    i4' <~~ pow_int inner_diameter 4 ;;
    Returned (PI * (r2 - s2), PI * (o4 - i4) / 64, PI * (o4' - i4') / 32).

Definition equivalent_stress
    (outer_diameter inner_diameter torque bending_moment axial_force : R)
  : run R :=
  let outer_diameter := outer_diameter / 1000 in
  let inner_diameter := inner_diameter / 1000 in
  props <~~ section_properties outer_diameter inner_diameter ;;
  let '(area, I_, J) := props in
  axial_stress <~~
    of_result (if Rlt_dec 0 area then div axial_force area else Ok 0) ;;
  bending_stress <~~
    of_result (if Rlt_dec 0 I_
               then div (bending_moment * (outer_diameter / 2)) I_
               else Ok 0) ;;
  shear_stress <~~
    of_result (if Rlt_dec 0 J then div (torque * (outer_diameter / 2)) J
               else Ok 0) ;;
  normal2 <~~ pow_int (axial_stress + bending_stress) 2 ;;
  shear2 <~~ pow_int shear_stress 2 ;;
  of_result (Py.sqrt (normal2 + 3 * shear2)).

Definition verify_shaft_diameter
    (outer_diameter inner_diameter torque bending_moment axial_force : R)
    (material_props : material) : run pyfloat :=
  sigma <~~ equivalent_stress outer_diameter inner_diameter torque
              bending_moment axial_force ;;
  if Rlt_dec 0 sigma then
    sf <~~ of_result (div (yield_strength material_props) sigma) ;;
    Returned (Fin sf)
  else Returned PosInf.

End Ranged.

(** * Properties *)

(** ** Outcomes *)

Section Outcomes.

Local Open Scope R_scope.

Lemma Ok_inj {A : Type} (a b : A) : Ok a = Ok b -> a = b.
Proof. intros H. now injection H. Qed.

Lemma div_ok (x y : R) : y <> 0 -> div x y = Ok (x / y).
Proof.
  intros Hy. unfold div.
  destruct (Req_dec_T y 0) as [E | _]; [contradiction | reflexivity].
Qed.

Lemma div_zero (x : R) : div x 0 = Raise ZeroDivisionError.
Proof.
  unfold div. destruct (Req_dec_T 0 0) as [_ | N]; [reflexivity | now elim N].
Qed.

Lemma sqrt_ok (x : R) : 0 <= x -> Py.sqrt x = Ok (R_sqrt.sqrt x).
Proof.
  intros Hx. unfold Py.sqrt.
  destruct (Rlt_dec x 0) as [L | _]; [lra | reflexivity].
Qed.

Lemma quotient_below (x y z : R) : 0 < z -> x < y * z -> x / z < y.
Proof.
  intros Hz H. apply Rmult_lt_reg_r with z; [exact Hz | ].
  replace (x / z * z) with x by (field; lra). exact H.
Qed.

Lemma quotient_above (x y z : R) : 0 < z -> x * z < y -> x < y / z.
Proof.
  intros Hz H. apply Rmult_lt_reg_r with z; [exact Hz | ].
  replace (y / z * z) with y by (field; lra). exact H.
Qed.

Lemma PI_bounds : 3.14159 < PI < 3.14160.
Proof.
  pose proof (PI_2_3_7_ineq 3) as H.
  unfold PI_2_3_7_tg, tg_alt, Ratan_seq in H.
  cbn [sum_f_R0 Nat.mul Nat.add pow INR] in H.
  lra.
Qed.

End Outcomes.

(** ** The velocity factor *)

Section VelocityFactor.

Import Gear.
Local Open Scope R_scope.

Lemma Kv_low (v : R) :
  v <= 5 -> tooth_strength_Kv v = Ok 1 /\ contact_stress_Kv v = Ok 1.
Proof.
  intros Hv. unfold tooth_strength_Kv, contact_stress_Kv.
  destruct (Rle_dec v 5) as [_ | N]; [ | contradiction].
  split; f_equal; lra.
Qed.

Lemma Kv_high (v : R) :
  5 < v ->
  tooth_strength_Kv v = Ok ((5.56 + R_sqrt.sqrt v) / 5.56) /\
  contact_stress_Kv v = Ok ((5.56 + R_sqrt.sqrt v) / 5.56).
Proof.
  intros Hv. unfold tooth_strength_Kv, contact_stress_Kv.
  destruct (Rle_dec v 5) as [L | _]; [lra | ].
  rewrite sqrt_ok by lra. cbn [bind].
  rewrite div_ok by lra.
  destruct (Rle_dec v 10); split; reflexivity.
Qed.

(** C6.  In the bending and in the contact analysis alike, the velocity
    factor [Kv] is 1.0 for a pitch-line velocity [v <= 5] and
    [(5.56 + sqrt v) / 5.56] for every [v > 5]: the branch for
    [5 < v <= 10] and the one for [v > 10] compute the same value. *)
Theorem dynamic_factor_single_formula (v : R) :
  (v <= 5 -> tooth_strength_Kv v = Ok 1 /\ contact_stress_Kv v = Ok 1) /\
  (5 < v ->
     tooth_strength_Kv v = Ok ((5.56 + R_sqrt.sqrt v) / 5.56) /\
     contact_stress_Kv v = Ok ((5.56 + R_sqrt.sqrt v) / 5.56)).
Proof.
  split; [apply Kv_low | apply Kv_high].
Qed.

Lemma dynamic_factor_single_formula_witness :
  (tooth_strength_Kv 3 = Ok 1 /\ contact_stress_Kv 3 = Ok 1) /\
  (tooth_strength_Kv 7 = Ok ((5.56 + R_sqrt.sqrt 7) / 5.56) /\
   contact_stress_Kv 7 = Ok ((5.56 + R_sqrt.sqrt 7) / 5.56)) /\
  (tooth_strength_Kv 12 = Ok ((5.56 + R_sqrt.sqrt 12) / 5.56) /\
   contact_stress_Kv 12 = Ok ((5.56 + R_sqrt.sqrt 12) / 5.56)).
Proof.
  split; [ | split].
  - apply (proj1 (dynamic_factor_single_formula 3)). lra.
  - apply (proj2 (dynamic_factor_single_formula 7)). lra.
  - apply (proj2 (dynamic_factor_single_formula 12)). lra.
Defined.

End VelocityFactor.

(** ** The Lewis form factor *)

Section LewisFactor.

Import Gear.
Local Open Scope Z_scope.

Lemma lookup_notin (d : list (Z * Q)) (t : Z) :
  ~ In t (map fst d) -> lookup t d = None.
Proof.
  induction d as [ | [k v] d IH]; cbn [lookup map fst In]; intros H.
  - reflexivity.
  - destruct (Z.eqb_spec t k) as [E | _].
    + elim H. left. now symmetry.
    + apply IH. intros Hin. apply H. now right.
Qed.

Lemma lookup_app_hit (l1 l2 : list (Z * Q)) (k : Z) (v : Q) :
  ~ In k (map fst l1) -> lookup k (l1 ++ (k, v) :: l2) = Some v.
Proof.
  induction l1 as [ | [k' v'] l1 IH]; cbn [lookup map fst In app]; intros H.
  - now rewrite Z.eqb_refl.
  - destruct (Z.eqb_spec k k') as [E | _].
    + elim H. left. now symmetry.
    + apply IH. intros Hin. apply H. now right.
Qed.

Lemma keys_sorted : StronglySorted Z.lt (map fst lewis_factors).
Proof.
  cbn [map fst lewis_factors]. repeat constructor.
Qed.

Lemma sorted_prefix_below (l1 l2 : list Z) (x : Z) :
  StronglySorted Z.lt (l1 ++ x :: l2) -> Forall (fun k => k < x) l1.
Proof.
  induction l1 as [ | a l1 IH]; cbn [app]; intros H.
  - constructor.
  - inversion H as [ | ? ? Hs Hf]; subst. constructor.
    + rewrite Forall_forall in Hf. apply Hf. apply in_or_app. right. now left.
    + now apply IH.
Qed.

Lemma sorted_suffix (l1 l2 : list Z) :
  StronglySorted Z.lt (l1 ++ l2) -> StronglySorted Z.lt l2.
Proof.
  induction l1 as [ | a l1 IH]; cbn [app]; intros H.
  - exact H.
  - inversion H; subst. now apply IH.
Qed.

Lemma teeth_list_eq : sorted (map fst lewis_factors) = map fst lewis_factors.
Proof. reflexivity. Qed.

Lemma lewis_min : list_min (map fst lewis_factors) = Ok 12.
Proof. reflexivity. Qed.

Lemma lewis_max : list_max (map fst lewis_factors) = Ok 300.
Proof. reflexivity. Qed.

Lemma lewis_key_hit (t : Z) (y : Q) :
  In (t, y) lewis_factors -> get_lewis_factor t = Ok (Some y).
Proof.
  intros H. cbn [lewis_factors In] in H.
  repeat (destruct H as [H | H]; [inversion H; subst; reflexivity | ]).
  contradiction.
Qed.

Lemma lewis_below (t : Z) : t < 12 -> get_lewis_factor t = Ok (Some 0.245%Q).
Proof.
  intros Ht. unfold get_lewis_factor.
  rewrite lookup_notin by (cbn [map fst lewis_factors In]; intuition lia).
  cbv zeta. rewrite teeth_list_eq, lewis_min. cbn [bind].
  now rewrite (proj2 (Z.ltb_lt t 12) Ht).
Qed.

Lemma lewis_above (t : Z) : 300 < t -> get_lewis_factor t = Ok (Some 0.472%Q).
Proof.
  intros Ht. unfold get_lewis_factor.
  rewrite lookup_notin by (cbn [map fst lewis_factors In]; intuition lia).
  cbv zeta. rewrite teeth_list_eq, lewis_min. cbn [bind].
  rewrite (proj2 (Z.ltb_ge t 12)) by lia.
  rewrite lewis_max. cbn [bind].
  now rewrite (proj2 (Z.gtb_lt t 300)) by lia.
Qed.

(** C7.  At every key of the table the lookup returns the stored value
    (0.322 at 20 teeth); below 12 teeth it returns the value stored at
    12, and above 300 teeth the value stored at 300. *)
Theorem lewis_factor_table_and_clamp :
  (forall t y, In (t, y) lewis_factors -> get_lewis_factor t = Ok (Some y)) /\
  get_lewis_factor 20 = Ok (Some 0.322%Q) /\
  (forall t, t < 12 -> get_lewis_factor t = Ok (Some 0.245%Q)) /\
  (forall t, 300 < t -> get_lewis_factor t = Ok (Some 0.472%Q)).
Proof.
  split; [exact lewis_key_hit | ].
  split; [reflexivity | ].
  split; [exact lewis_below | exact lewis_above].
Qed.

Lemma lewis_factor_table_and_clamp_witness :
  get_lewis_factor 43 = Ok (Some 0.397%Q) /\
  get_lewis_factor 11 = Ok (Some 0.245%Q) /\
  get_lewis_factor 301 = Ok (Some 0.472%Q).
Proof.
  destruct lewis_factor_table_and_clamp as (Hkey & _ & Hlo & Hhi).
  split; [ | split].
  - apply Hkey. cbn [lewis_factors In]. do 16 right. left. reflexivity.
  - apply Hlo. lia.
  - apply Hhi. lia.
Defined.

Example lewis_factor_at_21 :
  get_lewis_factor 21 = Ok (Some (0.322 + (0.331 - 0.322) * 1 / 2)%Q).
Proof. reflexivity. Qed.

Example lewis_factor_at_200 :
  exists y, get_lewis_factor 200 = Ok (Some y) /\ (y == 0.464)%Q.
Proof. eexists. split; reflexivity. Qed.

(** *** Interpolation *)

Lemma divQ_ok (x : Q) (z : Z) :
  z <> 0 -> divQ x (inject_Z z) = Ok (x / inject_Z z)%Q.
Proof.
  intros Hz. unfold divQ, Qeq_bool, inject_Z. cbn [Qnum Qden].
  destruct (Z.eqb_spec (z * 1) (0 * 1)) as [E | _]; [lia | reflexivity].
Qed.

(** The loop passes over every pair that ends below [t] and stops at the
    first pair that brackets it. *)
Lemma interpolate_bracket (t x1 x2 : Z) (l1 l2 : list Z) :
  Forall (fun k => k < t) l1 -> x1 < t -> t < x2 ->
  interpolate t (l1 ++ x1 :: x2 :: l2) =
  (y1 <- subscript lewis_factors x1 ;;
   y2 <- subscript lewis_factors x2 ;;
   r <- divQ ((y2 - y1) * inject_Z (t - x1)) (inject_Z (x2 - x1)) ;;
   Ok (Some (y1 + r)%Q)).
Proof.
  intros Hl1 H1 H2. induction l1 as [ | a l1 IH].
  - cbn [app interpolate].
    rewrite (proj2 (Z.leb_le x1 t)) by lia.
    rewrite (proj2 (Z.leb_le t x2)) by lia. reflexivity.
  - inversion Hl1 as [ | ? ? Ha Hrest]; subst.
    specialize (IH Hrest).
    destruct l1 as [ | b l1]; cbn [app interpolate] in *.
    + rewrite (proj2 (Z.leb_gt t x1)) by lia.
      rewrite Bool.andb_false_r. exact IH.
    + inversion Hrest; subst.
      rewrite (proj2 (Z.leb_gt t b)) by lia.
      rewrite Bool.andb_false_r. exact IH.
Qed.

Lemma lewis_interpolated (t x1 x2 : Z) (y1 y2 : Q) :
  adjacent (x1, y1) (x2, y2) lewis_factors -> x1 < t < x2 ->
  get_lewis_factor t =
  Ok (Some (y1 + (y2 - y1) * inject_Z (t - x1) / inject_Z (x2 - x1))%Q).
Proof.
  intros (l1 & l2 & E) [H1 H2].
  pose proof keys_sorted as Hs. rewrite E in Hs.
  rewrite map_app in Hs. cbn [map fst] in Hs.
  pose proof (sorted_prefix_below _ _ _ Hs) as Hbelow.
  pose proof (sorted_suffix _ _ Hs) as Hs1.
  inversion Hs1 as [ | ? ? Hs2 Hf1]; subst.
  inversion Hs2 as [ | ? ? _ Hf2]; subst.
  inversion Hf1 as [ | ? ? H12 _]; subst.
  rewrite Forall_forall in Hbelow, Hf2.
  assert (Hk1 : ~ In x1 (map fst l1)).
  { intros Hin. apply Hbelow in Hin. lia. }
  assert (Hk2 : ~ In x2 (map fst (l1 ++ [(x1, y1)]))).
  { rewrite map_app. cbn [map fst]. intros Hin.
    apply in_app_or in Hin. destruct Hin as [Hin | [Hin | []]].
    - apply Hbelow in Hin. lia.
    - lia. }
  assert (Hnokey : ~ In t (map fst lewis_factors)).
  { rewrite E, map_app. cbn [map fst]. intros Hin.
    apply in_app_or in Hin. destruct Hin as [Hin | [Hin | [Hin | Hin]]].
    - apply Hbelow in Hin. lia.
    - lia.
    - lia.
    - apply Hf2 in Hin. lia. }
  unfold get_lewis_factor. rewrite (lookup_notin _ _ Hnokey). cbv zeta.
  rewrite teeth_list_eq, lewis_min. cbn [bind].
  assert (Hdom : 12 <= x1 /\ x2 <= 300).
  { assert (Hin1 : In x1 (map fst lewis_factors)).
    { rewrite E, map_app. apply in_or_app. right. now left. }
    assert (Hin2 : In x2 (map fst lewis_factors)).
    { rewrite E, map_app. apply in_or_app. right. right. now left. }
    cbn [map fst lewis_factors In] in Hin1, Hin2. lia. }
  rewrite (proj2 (Z.ltb_ge t 12)) by lia.
  rewrite lewis_max. cbn [bind].
  rewrite Z.gtb_ltb, (proj2 (Z.ltb_ge 300 t)) by lia.
  assert (Hkeys : map fst lewis_factors = map fst l1 ++ x1 :: x2 :: map fst l2).
  { now rewrite E, map_app. }
  rewrite Hkeys.
  rewrite interpolate_bracket;
    [ | rewrite Forall_forall; intros k Hk; apply Hbelow in Hk; lia
      | lia | lia ].
  unfold subscript. rewrite E at 1. rewrite (lookup_app_hit _ _ _ _ Hk1).
  cbn [bind].
  replace lewis_factors with ((l1 ++ [(x1, y1)]) ++ (x2, y2) :: l2)
    by (rewrite E, <- app_assoc; reflexivity).
  rewrite (lookup_app_hit _ _ _ _ Hk2). cbn [bind].
  rewrite divQ_ok by lia. reflexivity.
Qed.

(** *** Monotonicity over the domain *)

Lemma lewis_steps_checked : forallb lewis_step_ok (seq 0 288) = true.
Proof. vm_compute. reflexivity. Qed.

Lemma lewis_step (t : Z) :
  12 <= t < 300 ->
  exists a b, get_lewis_factor t = Ok (Some a) /\
              get_lewis_factor (t + 1) = Ok (Some b) /\ (a <= b)%Q.
Proof.
  intros Ht.
  pose proof (proj1 (forallb_forall _ _) lewis_steps_checked
                (Z.to_nat (t - 12))) as H.
  assert (Hin : In (Z.to_nat (t - 12)) (seq 0 288)) by (apply in_seq; lia).
  specialize (H Hin). unfold lewis_step_ok in H. cbv zeta in H.
  replace (12 + Z.of_nat (Z.to_nat (t - 12))) with t in H by lia.
  destruct (get_lewis_factor t) as [[a | ] | ]; try discriminate.
  destruct (get_lewis_factor (t + 1)) as [[b | ] | ]; try discriminate.
  exists a, b. repeat split. now apply Qle_bool_iff.
Qed.

Lemma lewis_defined (t : Z) :
  12 <= t <= 300 -> exists y, get_lewis_factor t = Ok (Some y).
Proof.
  intros Ht. destruct (Z.eq_dec t 300) as [-> | Hne].
  - eexists. reflexivity.
  - destruct (lewis_step t) as (a & _ & Ha & _); [lia | ]. now exists a.
Qed.

Lemma lewis_monotone_by_distance (n : nat) (t : Z) :
  12 <= t -> t + Z.of_nat n <= 300 ->
  exists y1 y2, get_lewis_factor t = Ok (Some y1) /\
                get_lewis_factor (t + Z.of_nat n) = Ok (Some y2) /\
                (y1 <= y2)%Q.
Proof.
  induction n as [ | n IH]; intros Hlo Hhi.
  - destruct (lewis_defined t) as [y Hy]; [lia | ].
    exists y, y. rewrite Z.add_0_r. repeat split; try assumption.
    apply Qle_refl.
  - destruct IH as (y1 & ym & H1 & Hm & Hle); [lia | lia | ].
    destruct (lewis_step (t + Z.of_nat n)) as (a & b & Ha & Hb & Hab); [lia | ].
    rewrite Hm in Ha. injection Ha as <-.
    exists y1, b. repeat split; try assumption.
    + replace (t + Z.of_nat (S n)) with (t + Z.of_nat n + 1) by lia. exact Hb.
    + now apply Qle_trans with ym.
Qed.

(** C8.  Over the table domain 12..300 the Lewis form factor never
    decreases as the tooth count grows, and strictly between two
    neighbouring table entries [(x1, y1)] and [(x2, y2)] it is the linear
    interpolation [y1 + (y2 - y1) * (x - x1) / (x2 - x1)]. *)
Theorem lewis_factor_monotone_interpolated :
  (forall t1 t2, 12 <= t1 -> t1 <= t2 -> t2 <= 300 ->
     exists y1 y2, get_lewis_factor t1 = Ok (Some y1) /\
                   get_lewis_factor t2 = Ok (Some y2) /\ (y1 <= y2)%Q) /\
  (forall t x1 x2 y1 y2,
     adjacent (x1, y1) (x2, y2) lewis_factors -> x1 < t < x2 ->
     get_lewis_factor t =
     Ok (Some (y1 + (y2 - y1) * inject_Z (t - x1) / inject_Z (x2 - x1))%Q)).
Proof.
  split.
  - intros t1 t2 Hlo Hle Hhi.
    replace t2 with (t1 + Z.of_nat (Z.to_nat (t2 - t1))) by lia.
    apply lewis_monotone_by_distance; lia.
  - exact lewis_interpolated.
Qed.

Lemma lewis_factor_monotone_interpolated_witness :
  (exists y1 y2, get_lewis_factor 21 = Ok (Some y1) /\
                 get_lewis_factor 160 = Ok (Some y2) /\ (y1 <= y2)%Q) /\
  get_lewis_factor 40 =
  Ok (Some (0.384 + (0.397 - 0.384) * inject_Z (40 - 38)
                    / inject_Z (43 - 38))%Q).
Proof.
  destruct lewis_factor_monotone_interpolated as [Hmono Hinterp].
  split.
  - apply Hmono; lia.
  - apply Hinterp; [ | lia].
    exists (firstn 15 lewis_factors), (skipn 17 lewis_factors). reflexivity.
Defined.

End LewisFactor.

(** ** The geometry factor of the contact analysis *)

Section GeometryFactor.

Import Gear.
Local Open Scope R_scope.

Lemma sin_20_degrees : 0 < sin (radians 20) < 0.35.
Proof.
  pose proof PI_bounds as HPI. unfold radians. split.
  - apply sin_gt_0; lra.
  - apply Rlt_trans with (20 * (PI / 180)); [apply sin_lt_x | ]; lra.
Qed.

Lemma cos_helix_positive (helix_angle : R) :
  0 <= helix_angle <= 45 -> 0 < cos (radians helix_angle) <= 1.
Proof.
  intros Hh. pose proof PI_bounds as HPI. split.
  - apply cos_gt_0; unfold radians; nra.
  - apply COS_bound.
Qed.

Lemma geometry_factor_guard_cases (helix_angle gear_ratio f : R) :
  geometry_formula helix_angle gear_ratio = Ok f ->
  contact_geometry_factor helix_angle gear_ratio =
  Ok (if Rle_dec f 0 then 0.1 else f).
Proof.
  intros Hf. unfold contact_geometry_factor. rewrite Hf. cbn [bind].
  destruct (Rle_dec f 0); reflexivity.
Qed.

Lemma geometry_formula_positive (helix_angle gear_ratio : R) :
  0 <= helix_angle <= 45 -> 0 < gear_ratio ->
  geometry_formula helix_angle gear_ratio =
  Ok (cos (radians helix_angle) * sin (radians 20) / 2
      * (gear_ratio / (gear_ratio + 1))) /\
  0 < cos (radians helix_angle) * sin (radians 20) / 2
      * (gear_ratio / (gear_ratio + 1)).
Proof.
  intros Hh Hg. unfold geometry_formula. rewrite div_ok by lra. cbn [bind].
  split; [reflexivity | ].
  pose proof (cos_helix_positive _ Hh) as [Hc _].
  pose proof sin_20_degrees as [Hs _].
  apply Rmult_lt_0_compat.
  - apply Rdiv_lt_0_compat; [ | lra]. now apply Rmult_lt_0_compat.
  - apply Rdiv_lt_0_compat; lra.
Qed.

(** C5, refuted as stated.  A spur pair with equal tooth counts
    (helix 0, 20 and 20 teeth, ratio 1) is analysed with a geometry
    factor strictly below 0.1, so the factor is not
    [max(formula, 0.1)]. *)
Lemma geometry_factor_not_floored :
  exists gear_ratio I_,
    gear_ratio_of 20 20 = Ok gear_ratio /\
    contact_geometry_factor 0 gear_ratio = Ok I_ /\
    I_ < 0.1 /\
    I_ <> Rmax (cos (radians 0) * sin (radians 20) / 2
                * (gear_ratio / (gear_ratio + 1))) 0.1.
Proof.
  exists 1, (cos (radians 0) * sin (radians 20) / 2 * (1 / (1 + 1))).
  pose proof sin_20_degrees as [Hs0 Hs1].
  assert (Hc : cos (radians 0) = 1).
  { unfold radians. rewrite Rmult_0_l. apply cos_0. }
  assert (Hlt : cos (radians 0) * sin (radians 20) / 2 * (1 / (1 + 1)) < 0.1).
  { rewrite Hc. lra. }
  split; [ | split; [ | split]].
  - unfold gear_ratio_of. rewrite div_ok by lra. f_equal. lra.
  - destruct (geometry_formula_positive 0 1) as [Hf Hpos]; try lra.
    rewrite (geometry_factor_guard_cases _ _ _ Hf).
    destruct (Rle_dec _ 0) as [L | _]; [lra | reflexivity].
  - exact Hlt.
  - pose proof (Rmax_r (cos (radians 0) * sin (radians 20) / 2
                        * (1 / (1 + 1))) 0.1). lra.
Qed.

(** C5, as the code has it.  The guard replaces only a non-positive
    formula value by 0.1, so the factor divided by is always positive;
    for a helix angle in [0, 45] degrees and tooth counts of at least 12
    the formula value is positive and is used unchanged. *)
Theorem geometry_factor_guard :
  (forall helix_angle gear_ratio f,
     geometry_formula helix_angle gear_ratio = Ok f ->
     exists I_, contact_geometry_factor helix_angle gear_ratio = Ok I_ /\
                0 < I_ /\ (0 < f -> I_ = f) /\ (f <= 0 -> I_ = 0.1)) /\
  (forall helix_angle gear_teeth pinion_teeth,
     0 <= helix_angle <= 45 ->
     (12 <= gear_teeth)%Z -> (12 <= pinion_teeth)%Z ->
     exists gear_ratio,
       gear_ratio_of gear_teeth pinion_teeth = Ok gear_ratio /\
       contact_geometry_factor helix_angle gear_ratio =
       Ok (cos (radians helix_angle) * sin (radians 20) / 2
           * (gear_ratio / (gear_ratio + 1))) /\
       0 < cos (radians helix_angle) * sin (radians 20) / 2
           * (gear_ratio / (gear_ratio + 1))).
Proof.
  split.
  - intros h g f Hf. rewrite (geometry_factor_guard_cases _ _ _ Hf).
    destruct (Rle_dec f 0) as [L | G].
    + exists 0.1. repeat split; try lra.
    + exists f. repeat split; try lra.
  - intros h gt pt Hh Hgt Hpt.
    assert (Hg : 0 < IZR gt) by (apply IZR_lt; lia).
    assert (Hp : 0 < IZR pt) by (apply IZR_lt; lia).
    exists (IZR gt / IZR pt).
    assert (Hr : 0 < IZR gt / IZR pt) by (apply Rdiv_lt_0_compat; assumption).
    destruct (geometry_formula_positive h _ Hh Hr) as [Hf Hpos].
    split; [ | split].
    + unfold gear_ratio_of. apply div_ok. lra.
    + rewrite (geometry_factor_guard_cases _ _ _ Hf).
      destruct (Rle_dec _ 0) as [L | _]; [lra | reflexivity].
    + exact Hpos.
Qed.

Lemma geometry_factor_guard_witness :
  exists gear_ratio,
    gear_ratio_of 40 20 = Ok gear_ratio /\
    contact_geometry_factor 20 gear_ratio =
    Ok (cos (radians 20) * sin (radians 20) / 2
        * (gear_ratio / (gear_ratio + 1))) /\
    0 < cos (radians 20) * sin (radians 20) / 2
        * (gear_ratio / (gear_ratio + 1)).
Proof.
  apply (proj2 geometry_factor_guard 20 40%Z 20%Z); [lra | lia | lia].
Defined.

End GeometryFactor.

(** ** Verifying a diameter *)

Section VerifyDiameter.

Import Shaft.
Local Open Scope R_scope.

(** A quotient guarded by [if x > 0] never raises. *)
Lemma guarded_div_ok (a x : R) :
  (if Rlt_dec 0 x then div a x else Ok 0) =
  Ok (if Rlt_dec 0 x then a / x else 0).
Proof.
  destruct (Rlt_dec 0 x); [apply div_ok; lra | reflexivity].
Qed.

Lemma equivalent_stress_total (outer inner torque moment force : R) :
  exists sigma,
    equivalent_stress outer inner torque moment force = Ok sigma /\
    0 <= sigma.
Proof.
  unfold equivalent_stress.
  destruct (section_properties (outer / 1000) (inner / 1000)) as [[area I_] J].
  rewrite !guarded_div_ok. cbn [bind].
  rewrite sqrt_ok.
  - eexists. split; [reflexivity | apply sqrt_pos].
  - match goal with |- 0 <= ?a ^ 2 + 3 * ?b ^ 2 =>
      pose proof (pow2_ge_0 a); pose proof (pow2_ge_0 b); lra end.
Qed.


Lemma verify_zero_stress (outer inner torque moment force : R) (m : material) :
  equivalent_stress outer inner torque moment force = Ok 0 ->
  verify_shaft_diameter outer inner torque moment force m = Ok PosInf.
Proof.
  intros H. unfold verify_shaft_diameter. rewrite H. cbn [bind].
  destruct (Rlt_dec 0 0) as [L | _]; [lra | reflexivity].
Qed.



(** Whatever the arguments, every quotient in [verify_shaft_diameter] is
    taken behind a guard on its own divisor, so the call returns. *)
Lemma verify_shaft_diameter_returns
    (outer inner torque moment force : R) (m : material) :
  returns (verify_shaft_diameter outer inner torque moment force m).
Proof.
  destruct (equivalent_stress_total outer inner torque moment force)
    as (sigma & Hsig & Hpos).
  unfold returns, verify_shaft_diameter. rewrite Hsig. cbn [bind].
  destruct (Rlt_dec 0 sigma) as [L | _]; [ | now exists PosInf].
  rewrite div_ok by lra. cbn [bind]. now eexists.
Qed.

End VerifyDiameter.

(** ** The search of the hollow branch *)

Section HollowSearchRun.

Import Shaft.
Local Open Scope R_scope.

Variables (equivalent_moment allowable_stress inner_diameter : R).

Lemma candidate_0 (d : R) : candidate d 0 = d.
Proof. unfold candidate. cbn [INR]. lra. Qed.

Lemma candidate_S (d : R) (j : nat) : candidate d (S j) = candidate (d + 0.1) j.
Proof. unfold candidate. rewrite S_INR. lra. Qed.

Lemma candidate_100 (d : R) : candidate d 100 = d + 10.
Proof.
  unfold candidate. rewrite INR_IZR_INZ.
  cbn [Z.of_nat Pos.of_succ_nat Pos.succ]. lra.
Qed.

Lemma candidates_shift (d : R) (n : nat) :
  map (candidate d) (seq 0 (S n)) = d :: map (candidate (d + 0.1)) (seq 0 n).
Proof.
  cbn [seq map]. rewrite candidate_0. f_equal.
  rewrite <- seq_shift, map_map. apply map_ext. intros j. apply candidate_S.
Qed.

(** The log is a ghost: dropping it gives the loop of the source. *)
Lemma hollow_search_log_erase (n : nat) (d : R) (tried : list R) :
  hollow_search equivalent_moment allowable_stress inner_diameter n d =
  match hollow_search_log equivalent_moment allowable_stress inner_diameter
      n d tried with
  | Ok (x, _) => Ok x
  | Raise e => Raise e
  end.
Proof.
  revert d tried.
  induction n as [ | n IH]; intros d tried;
    cbn [hollow_search hollow_search_log].
  - reflexivity.
  - destruct (candidate_stress equivalent_moment inner_diameter d) as [s | e];
      cbn [bind]; [ | reflexivity].
    destruct (Rle_dec s allowable_stress); [reflexivity | apply IH].
Qed.

(** What a run of at most [n] iterations does when every stress
    evaluation returns. *)
Lemma hollow_search_log_run (n : nat) (d : R) (tried : list R) :
  (forall j, (j < n)%nat ->
     exists s,
       candidate_stress equivalent_moment inner_diameter (candidate d j)
       = Ok s) ->
  exists k,
    (k <= n)%nat /\
    hollow_search_log equivalent_moment allowable_stress inner_diameter
      n d tried =
      Ok (candidate d k,
          tried ++ map (candidate d) (seq 0 (Nat.min (S k) n))) /\
    (forall j, (j < k)%nat ->
       exists s,
         candidate_stress equivalent_moment inner_diameter (candidate d j)
         = Ok s /\ allowable_stress < s) /\
    ((k < n)%nat ->
       exists s,
         candidate_stress equivalent_moment inner_diameter (candidate d k)
         = Ok s /\ s <= allowable_stress).
Proof.
  revert d tried.
  induction n as [ | n IH]; intros d tried Hret.
  - exists 0%nat. cbn [hollow_search_log Nat.min seq map].
    rewrite candidate_0, app_nil_r.
    split; [lia | ]. split; [reflexivity | ].
    split; intros; lia.
  - destruct (Hret 0%nat) as [s0 Hs0]; [lia | ].
    rewrite candidate_0 in Hs0.
    cbn [hollow_search_log]. rewrite Hs0. cbn [bind].
    destruct (Rle_dec s0 allowable_stress) as [Hle | Hgt].
    + exists 0%nat. cbn [Nat.min seq map]. rewrite candidate_0.
      split; [lia | ]. split; [reflexivity | ]. split.
      * intros j Hj. lia.
      * intros _. exists s0. now split.
    + destruct (IH (d + 0.1) (tried ++ [d])) as (k & Hk & Hrun & Hbefore & Hat).
      { intros j Hj. destruct (Hret (S j)) as [s Hs]; [lia | ].
        exists s. now rewrite <- candidate_S. }
      exists (S k). rewrite Hrun.
      split; [lia | ]. split; [ | split].
      * rewrite candidate_S. f_equal. f_equal.
        change (Nat.min (S (S k)) (S n)) with (S (Nat.min (S k) n)).
        rewrite candidates_shift, <- app_assoc. reflexivity.
      * intros [ | j] Hj.
        -- exists s0. rewrite candidate_0. split; [assumption | lra].
        -- rewrite candidate_S. apply Hbefore. lia.
      * intros Hlt. rewrite candidate_S. apply Hat. lia.
Qed.

(** With a positive bore every candidate is wider than the bore, its
    section modulus is positive, and its stress evaluation returns. *)
Lemma candidate_stress_ok (d : R) :
  0 < inner_diameter -> inner_diameter < d ->
  0 < (PI / 32) * (d ^ 4 - inner_diameter ^ 4) / (d / 2) /\
  candidate_stress equivalent_moment inner_diameter d =
  Ok (equivalent_moment
      / ((PI / 32) * (d ^ 4 - inner_diameter ^ 4) / (d / 2))).
Proof.
  intros Hi Hd. unfold candidate_stress. cbv zeta.
  assert (HJ : 0 < (PI / 32) * (d ^ 4 - inner_diameter ^ 4)).
  { pose proof PI_RGT_0 as HPI. apply Rmult_lt_0_compat; [lra | ].
    replace (d ^ 4 - inner_diameter ^ 4)
      with ((d - inner_diameter) * (d + inner_diameter)
            * (d * d + inner_diameter * inner_diameter)) by ring.
    apply Rmult_lt_0_compat; [apply Rmult_lt_0_compat; lra | nra]. }
  assert (HW : 0 < (PI / 32) * (d ^ 4 - inner_diameter ^ 4) / (d / 2)).
  { apply Rdiv_lt_0_compat; lra. }
  split; [exact HW | ].
  rewrite div_ok by lra. cbn [bind]. apply div_ok. lra.
Qed.

Lemma candidate_above (d : R) (j : nat) : d <= candidate d j.
Proof. unfold candidate. pose proof (pos_INR j). lra. Qed.

End HollowSearchRun.

(** ** Sizing a diameter *)

Section RequiredDiameter.

Import Shaft.
Local Open Scope R_scope.

Lemma moment_radicand_nonneg (torque moment : R) :
  0 <= moment ^ 2 + (0.75 * torque) ^ 2.
Proof.
  pose proof (pow2_ge_0 moment). pose proof (pow2_ge_0 (0.75 * torque)). lra.
Qed.

Lemma equivalent_moment_positive (torque moment : R) :
  moment <> 0 \/ torque <> 0 ->
  0 < R_sqrt.sqrt (moment ^ 2 + (0.75 * torque) ^ 2).
Proof.
  intros H. apply sqrt_lt_R0.
  pose proof (pow2_ge_0 moment). pose proof (pow2_ge_0 (0.75 * torque)).
  destruct H as [H | H].
  - pose proof (pow_nonzero moment 2 H). lra.
  - assert (Ht : 0.75 * torque <> 0) by lra.
    pose proof (pow_nonzero _ 2 Ht). lra.
Qed.

Lemma required_diameter_hollow
    (torque moment force : R) (m : material) (sf inner : R) :
  sf <> 0 -> inner <> 0 ->
  calculate_required_diameter torque moment force m sf inner =
  (diameter <- hollow_search
                 (R_sqrt.sqrt (moment ^ 2 + (0.75 * torque) ^ 2))
                 (yield_strength m / sf) inner max_iterations (inner + 10) ;;
   Ok (PyFloat (diameter * 1000))).
Proof.
  intros Hsf Hin. unfold calculate_required_diameter.
  rewrite div_ok by assumption. cbn [bind].
  rewrite sqrt_ok by apply moment_radicand_nonneg. cbn [bind].
  destruct (Req_dec_T inner 0) as [E | _]; [contradiction | reflexivity].
Qed.

Lemma required_diameter_solid
    (torque moment force : R) (m : material) (sf : R) :
  sf <> 0 ->
  calculate_required_diameter torque moment force m sf 0 =
  (q <- div (32 * R_sqrt.sqrt (moment ^ 2 + (0.75 * torque) ^ 2))
            (PI * (yield_strength m / sf)) ;;
   Ok (scale (pow_third q) 1000)).
Proof.
  intros Hsf. unfold calculate_required_diameter.
  rewrite div_ok by assumption. cbn [bind].
  rewrite sqrt_ok by apply moment_radicand_nonneg. cbn [bind].
  destruct (Req_dec_T 0 0) as [_ | N]; [reflexivity | now elim N].
Qed.

(** The hollow branch, run: it returns candidate number [k] of the
    search, where [k] counts the candidates found too highly stressed. *)
Lemma required_diameter_hollow_run
    (torque moment force : R) (m : material) (sf inner : R) :
  0 < inner -> sf <> 0 ->
  exists k,
    (k <= max_iterations)%nat /\
    calculate_required_diameter torque moment force m sf inner =
      Ok (PyFloat (candidate (inner + 10) k * 1000)) /\
    hollow_search_log (R_sqrt.sqrt (moment ^ 2 + (0.75 * torque) ^ 2))
      (yield_strength m / sf) inner max_iterations (inner + 10) [] =
      Ok (candidate (inner + 10) k,
          map (candidate (inner + 10))
              (seq 0 (Nat.min (S k) max_iterations))) /\
    (forall j, (j < k)%nat ->
       exists s,
         candidate_stress (R_sqrt.sqrt (moment ^ 2 + (0.75 * torque) ^ 2))
           inner (candidate (inner + 10) j) = Ok s /\
         yield_strength m / sf < s) /\
    ((k < max_iterations)%nat ->
       exists s,
         candidate_stress (R_sqrt.sqrt (moment ^ 2 + (0.75 * torque) ^ 2))
           inner (candidate (inner + 10) k) = Ok s /\
         s <= yield_strength m / sf).
Proof.
  intros Hin Hsf.
  destruct (hollow_search_log_run
              (R_sqrt.sqrt (moment ^ 2 + (0.75 * torque) ^ 2))
              (yield_strength m / sf) inner max_iterations (inner + 10) [])
    as (k & Hk & Hrun & Hbefore & Hat).
  { intros j _. eexists.
    apply candidate_stress_ok; [assumption | ].
    pose proof (candidate_above (inner + 10) j). lra. }
  exists k. cbn [app] in Hrun.
  split; [exact Hk | ]. split; [ | split; [exact Hrun | split; assumption]].
  rewrite required_diameter_hollow by lra.
  rewrite (hollow_search_log_erase _ _ _ _ _ []), Hrun. reflexivity.
Qed.

Lemma fallback_material_present :
  dict_get "AISI 1045 Steel" MATERIALS_DATABASE = Some default_material.
Proof. reflexivity. Qed.

Lemma steel_1045_yield :
  yield_strength (get_material_properties "AISI 1045 Steel") = 310e6.
Proof. reflexivity. Qed.



(** When every one of the 100 candidates is too highly stressed, the
    search runs out and leaves the diameter one step past the last
    candidate it evaluated. *)
Lemma required_diameter_exhausted
    (torque moment force : R) (m : material) (sf inner : R) :
  0 < inner -> sf <> 0 ->
  (forall j s, (j < max_iterations)%nat ->
     candidate_stress (R_sqrt.sqrt (moment ^ 2 + (0.75 * torque) ^ 2))
       inner (candidate (inner + 10) j) = Ok s ->
     yield_strength m / sf < s) ->
  calculate_required_diameter torque moment force m sf inner =
    Ok (PyFloat ((inner + 20) * 1000)) /\
  hollow_search_log (R_sqrt.sqrt (moment ^ 2 + (0.75 * torque) ^ 2))
    (yield_strength m / sf) inner max_iterations (inner + 10) [] =
    Ok (inner + 20, map (candidate (inner + 10)) (seq 0 max_iterations)).
Proof.
  intros Hin Hsf Hall.
  destruct (required_diameter_hollow_run torque moment force m sf inner Hin Hsf)
    as (k & Hk & Hcalc & Hrun & _ & Hat).
  assert (Ek : k = max_iterations).
  { destruct (Nat.eq_dec k max_iterations) as [E | N]; [exact E | ].
    destruct Hat as (s & Hs & Hle); [lia | ].
    pose proof (Hall k s ltac:(lia) Hs). lra. }
  subst k. rewrite Hcalc, Hrun. unfold max_iterations.
  rewrite candidate_100, Nat.min_r by lia.
  replace (inner + 10 + 10) with (inner + 20) by lra. split; reflexivity.
Qed.

(** When the first candidate is already within the allowable stress,
    it is returned. *)
Lemma required_diameter_immediate
    (torque moment force : R) (m : material) (sf inner : R) :
  0 < inner -> sf <> 0 ->
  (forall s,
     candidate_stress (R_sqrt.sqrt (moment ^ 2 + (0.75 * torque) ^ 2))
       inner (inner + 10) = Ok s ->
     s <= yield_strength m / sf) ->
  calculate_required_diameter torque moment force m sf inner =
    Ok (PyFloat ((inner + 10) * 1000)).
Proof.
  intros Hin Hsf Hfirst.
  destruct (required_diameter_hollow_run torque moment force m sf inner Hin Hsf)
    as (k & _ & Hcalc & _ & Hbefore & _).
  destruct k as [ | k].
  - rewrite Hcalc, candidate_0. reflexivity.
  - destruct (Hbefore 0%nat) as (s & Hs & Hlt); [lia | ].
    rewrite candidate_0 in Hs. pose proof (Hfirst s Hs). lra.
Qed.




(** *** A zero allowable stress *)

Lemma zero_allowable_solid
    (torque moment force : R) (m : material) (sf : R) :
  yield_strength m = 0 -> sf <> 0 ->
  calculate_required_diameter torque moment force m sf 0 =
  Raise ZeroDivisionError.
Proof.
  intros Hy Hsf. rewrite required_diameter_solid by assumption.
  rewrite Hy. replace (PI * (0 / sf)) with 0 by (unfold Rdiv; ring).
  now rewrite div_zero.
Qed.

Lemma zero_allowable_hollow_loaded
    (torque moment force : R) (m : material) (sf inner : R) :
  yield_strength m = 0 -> sf <> 0 -> 0 < inner ->
  moment <> 0 \/ torque <> 0 ->
  calculate_required_diameter torque moment force m sf inner =
  Ok (PyFloat ((inner + 20) * 1000)).
Proof.
  intros Hy Hsf Hin Hload.
  apply required_diameter_exhausted; try assumption.
  intros j s Hj Hs. rewrite Hy.
  destruct (candidate_stress_ok
              (R_sqrt.sqrt (moment ^ 2 + (0.75 * torque) ^ 2)) inner
              (candidate (inner + 10) j)) as [HW Hstress];
    [assumption | pose proof (candidate_above (inner + 10) j); lra | ].
  rewrite Hstress in Hs. apply Ok_inj in Hs. subst s.
  replace (0 / sf) with 0 by (unfold Rdiv; ring).
  apply Rdiv_lt_0_compat; [ | exact HW].
  now apply equivalent_moment_positive.
Qed.

Lemma zero_allowable_hollow_unloaded
    (force : R) (m : material) (sf inner : R) :
  yield_strength m = 0 -> sf <> 0 -> 0 < inner ->
  calculate_required_diameter 0 0 force m sf inner =
  Ok (PyFloat ((inner + 10) * 1000)).
Proof.
  intros Hy Hsf Hin.
  apply required_diameter_immediate; try assumption.
  intros s Hs. rewrite Hy.
  destruct (candidate_stress_ok
              (R_sqrt.sqrt (0 ^ 2 + (0.75 * 0) ^ 2)) inner (inner + 10))
    as [HW Hstress]; [assumption | lra | ].
  rewrite Hstress in Hs. apply Ok_inj in Hs. subst s.
  replace (0 ^ 2 + (0.75 * 0) ^ 2) with 0 by ring.
  rewrite sqrt_0. unfold Rdiv. rewrite !Rmult_0_l. apply Rle_refl.
Qed.

(** C3, refuted as stated.  With a material of zero yield strength the
    allowable stress is zero, and a hollow shaft under the usual loads
    is sized without any error: the call returns 40000. *)
Lemma zero_allowable_stress_returns :
  div (yield_strength strengthless) 2 = Ok 0 /\
  calculate_required_diameter 1000 500 0 strengthless 2 20 =
    Ok (PyFloat 40000) /\
  (forall e, calculate_required_diameter 1000 500 0 strengthless 2 20
             <> Raise e).
Proof.
  assert (H : calculate_required_diameter 1000 500 0 strengthless 2 20 =
              Ok (PyFloat 40000)).
  { rewrite (zero_allowable_hollow_loaded 1000 500 0 strengthless 2 20);
      [f_equal; f_equal; lra | reflexivity | lra | lra | left; lra]. }
  split; [ | split].
  - rewrite div_ok by lra. f_equal. cbn [yield_strength strengthless]. lra.
  - exact H.
  - intros e. rewrite H. discriminate.
Qed.

(** C3, as the code has it, for inputs in the working range of the
    arithmetic: loads of magnitude at most 1e15 and, for a hollow shaft,
    a bore of at most 1e6.  When the yield strength, and with it the
    allowable stress, is zero: a solid shaft fails with
    [ZeroDivisionError] at the closed-form division; a hollow shaft
    raises nothing and returns [(inner + 10) * 1000] when both loads are
    zero, and [(inner + 20) * 1000], after all 100 iterations, when the
    loads are not negligible ([moment ^ 2 + torque ^ 2] at least 1e-6,
    well clear of the loads whose squares underflow to zero). *)
Theorem zero_allowable_stress_outcome
    (torque moment force : R) (m : material) (sf inner : R) :
  yield_strength m = 0 -> sf <> 0 ->
  -1e15 <= torque <= 1e15 -> -1e15 <= moment <= 1e15 ->
  div (yield_strength m) sf = Ok 0 /\
  (inner = 0 ->
     calculate_required_diameter torque moment force m sf inner =
     Raise ZeroDivisionError) /\
  (0 < inner <= 1e6 -> moment = 0 -> torque = 0 ->
     calculate_required_diameter torque moment force m sf inner =
     Ok (PyFloat ((inner + 10) * 1000))) /\
  (0 < inner <= 1e6 -> 1e-6 <= moment ^ 2 + torque ^ 2 ->
     calculate_required_diameter torque moment force m sf inner =
     Ok (PyFloat ((inner + 20) * 1000))).
Proof.
  intros Hy Hsf _ _. split; [ | split; [ | split]].
  - rewrite div_ok by assumption. f_equal. rewrite Hy. unfold Rdiv. ring.
  - intros ->. now apply zero_allowable_solid.
  - intros [Hin _] -> ->. now apply zero_allowable_hollow_unloaded.
  - intros [Hin _] Hload. apply zero_allowable_hollow_loaded; try assumption.
    destruct (Req_dec_T moment 0) as [Hm | Hm]; [right | now left].
    intros Ht. rewrite Hm, Ht in Hload. lra.
Qed.

Lemma zero_allowable_stress_outcome_witness :
  calculate_required_diameter 1000 500 0 strengthless 2 0 =
    Raise ZeroDivisionError /\
  calculate_required_diameter 0 0 0 strengthless 2 20 =
    Ok (PyFloat ((20 + 10) * 1000)) /\
  calculate_required_diameter 1000 500 0 strengthless 2 20 =
    Ok (PyFloat ((20 + 20) * 1000)).
Proof.
  split; [ | split].
  - apply (zero_allowable_stress_outcome 1000 500 0 strengthless 2 0);
      [reflexivity | lra | lra | lra | reflexivity].
  - apply (zero_allowable_stress_outcome 0 0 0 strengthless 2 20);
      [reflexivity | lra | lra | lra | lra | reflexivity | reflexivity].
  - apply (zero_allowable_stress_outcome 1000 500 0 strengthless 2 20);
      [reflexivity | lra | lra | lra | lra | lra].
Defined.

End RequiredDiameter.

(** ** The solid shaft: closed form and round trip *)

Section SolidShaft.

Import Shaft.
Local Open Scope R_scope.

Lemma cube_root_cubed (q : R) : 0 < q -> Rpower q (1 / 3) ^ 3 = q.
Proof.
  intros Hq. rewrite <- Rpower_pow by apply exp_pos.
  rewrite Rpower_mult.
  replace (1 / 3 * INR 3) with 1 by (cbn [INR]; field).
  now apply Rpower_1.
Qed.

Lemma cube_root_of_cube (a : R) : 0 < a -> Rpower (a ^ 3) (1 / 3) = a.
Proof.
  intros Ha. rewrite <- Rpower_pow by assumption.
  rewrite Rpower_mult.
  replace (INR 3 * (1 / 3)) with 1 by (cbn [INR]; field).
  now apply Rpower_1.
Qed.

Lemma cube_root_between (a b q : R) :
  0 < a -> a ^ 3 < q -> q < b ^ 3 -> 0 < b ->
  a < Rpower q (1 / 3) < b.
Proof.
  intros Ha Haq Hqb Hb.
  assert (Ha3 : 0 < a ^ 3) by (apply pow_lt; assumption).
  split.
  - rewrite <- (cube_root_of_cube a Ha) at 1.
    apply Rlt_Rpower_l; lra.
  - rewrite <- (cube_root_of_cube b Hb) at 1.
    apply Rlt_Rpower_l; lra.
Qed.

Lemma pow_third_positive (q : R) :
  0 < q -> pow_third q = PyFloat (Rpower q (1 / 3)).
Proof.
  intros Hq. unfold pow_third.
  destruct (Req_dec_T q 0) as [E | _]; [lra | ].
  destruct (Rlt_dec 0 q) as [_ | N]; [reflexivity | contradiction].
Qed.

(** The closed form of the solid branch under a load. *)
Lemma required_diameter_solid_loaded
    (torque moment force : R) (m : material) (sf : R) :
  0 < yield_strength m -> 0 < sf -> moment <> 0 \/ torque <> 0 ->
  0 < 32 * R_sqrt.sqrt (moment ^ 2 + (0.75 * torque) ^ 2)
      / (PI * (yield_strength m / sf)) /\
  calculate_required_diameter torque moment force m sf 0 =
  Ok (PyFloat
        (Rpower (32 * R_sqrt.sqrt (moment ^ 2 + (0.75 * torque) ^ 2)
                 / (PI * (yield_strength m / sf))) (1 / 3) * 1000)).
Proof.
  intros Hy Hsf Hload.
  pose proof (equivalent_moment_positive torque moment Hload) as HM.
  pose proof PI_RGT_0 as HPI.
  assert (Ha : 0 < yield_strength m / sf)
    by (apply Rdiv_lt_0_compat; assumption).
  assert (Hden : 0 < PI * (yield_strength m / sf))
    by (apply Rmult_lt_0_compat; lra).
  assert (Hq : 0 < 32 * R_sqrt.sqrt (moment ^ 2 + (0.75 * torque) ^ 2)
                   / (PI * (yield_strength m / sf)))
    by (apply Rdiv_lt_0_compat; lra).
  split; [exact Hq | ].
  rewrite required_diameter_solid by lra.
  rewrite div_ok by lra. cbn [bind].
  rewrite pow_third_positive by exact Hq. reflexivity.
Qed.

(** The equivalent stress of a solid shaft of diameter [c] metres. *)
Lemma equivalent_stress_solid (c torque moment force : R) :
  0 < c ->
  equivalent_stress (c * 1000) 0 torque moment force =
  Ok (R_sqrt.sqrt
        ((force / (PI * (c / 2) ^ 2) + moment * (c / 2) / (PI * c ^ 4 / 64)) ^ 2
         + 3 * (torque * (c / 2) / (PI * c ^ 4 / 32)) ^ 2)).
Proof.
  intros Hc. pose proof PI_RGT_0 as HPI.
  unfold equivalent_stress. cbv zeta.
  replace (c * 1000 / 1000) with c by field.
  replace (0 / 1000) with 0 by field.
  unfold section_properties.
  destruct (Req_dec_T 0 0) as [_ | N]; [ | now elim N].
  rewrite !guarded_div_ok. cbn [bind].
  assert (Hc4 : 0 < c ^ 4) by (apply pow_lt; assumption).
  assert (Hc2 : 0 < (c / 2) ^ 2) by (apply pow_lt; lra).
  destruct (Rlt_dec 0 (PI * (c / 2) ^ 2)) as [_ | N];
    [ | elim N; apply Rmult_lt_0_compat; assumption].
  destruct (Rlt_dec 0 (PI * c ^ 4 / 64)) as [_ | N];
    [ | elim N; apply Rdiv_lt_0_compat;
          [apply Rmult_lt_0_compat; assumption | lra]].
  destruct (Rlt_dec 0 (PI * c ^ 4 / 32)) as [_ | N];
    [ | elim N; apply Rdiv_lt_0_compat;
          [apply Rmult_lt_0_compat; assumption | lra]].
  apply sqrt_ok.
  match goal with |- 0 <= ?a ^ 2 + 3 * ?b ^ 2 =>
    pose proof (pow2_ge_0 a); pose proof (pow2_ge_0 b); lra end.
Qed.

(** The safety factor that verification gives the sized solid shaft. *)
Lemma solid_round_trip_value
    (torque moment : R) (m : material) (sf : R) :
  0 < yield_strength m -> 0 < sf -> moment <> 0 \/ torque <> 0 ->
  exists d,
    calculate_required_diameter torque moment 0 m sf 0 = Ok (PyFloat d) /\
    verify_shaft_diameter d 0 torque moment 0 m =
    Ok (Fin (sf * R_sqrt.sqrt (moment ^ 2 + (0.75 * torque) ^ 2)
             / R_sqrt.sqrt (moment ^ 2 + 0.75 * torque ^ 2))).
Proof.
  intros Hy Hsf Hload.
  destruct (required_diameter_solid_loaded torque moment 0 m sf Hy Hsf Hload)
    as [Hq Hcalc].
  pose proof (equivalent_moment_positive torque moment Hload) as HM.
  pose proof PI_RGT_0 as HPI.
  set (Meq := R_sqrt.sqrt (moment ^ 2 + (0.75 * torque) ^ 2)) in *.
  set (q := 32 * Meq / (PI * (yield_strength m / sf))) in *.
  set (c := Rpower q (1 / 3)) in *.
  assert (Hc : 0 < c) by apply exp_pos.
  assert (Hc3 : c ^ 3 = q) by (apply cube_root_cubed; exact Hq).
  assert (Hq' : q * (PI * yield_strength m) = 32 * Meq * sf).
  { unfold q. field. lra. }
  assert (HS : 0 < moment ^ 2 + 0.75 * torque ^ 2).
  { pose proof (pow2_ge_0 moment). pose proof (pow2_ge_0 torque).
    destruct Hload as [Hne | Hne]; pose proof (pow_nonzero _ 2 Hne); lra. }
  assert (HsS : 0 < R_sqrt.sqrt (moment ^ 2 + 0.75 * torque ^ 2))
    by (apply sqrt_lt_R0; exact HS).
  set (k := yield_strength m / sf / Meq).
  assert (Hk : 0 < k) by (unfold k; repeat apply Rdiv_lt_0_compat; assumption).
  exists (c * 1000). split; [exact Hcalc | ].
  unfold verify_shaft_diameter.
  rewrite equivalent_stress_solid by exact Hc. cbn [bind].
  assert (Hb : moment * (c / 2) / (PI * c ^ 4 / 64) = moment * k).
  { replace (c ^ 4) with (c ^ 3 * c) by ring. rewrite Hc3.
    unfold k, q. field. repeat split; lra. }
  assert (Ht : torque * (c / 2) / (PI * c ^ 4 / 32) = torque * k / 2).
  { replace (c ^ 4) with (c ^ 3 * c) by ring. rewrite Hc3.
    unfold k, q. field. repeat split; lra. }
  rewrite Hb, Ht.
  replace ((0 / (PI * (c / 2) ^ 2) + moment * k) ^ 2
           + 3 * (torque * k / 2) ^ 2)
    with (k ^ 2 * (moment ^ 2 + 0.75 * torque ^ 2))
    by (replace 0.75 with (3 / 4) by lra; field; lra).
  rewrite sqrt_mult by (try apply pow2_ge_0; lra).
  rewrite sqrt_pow2 by lra.
  assert (Hsig : 0 < k * R_sqrt.sqrt (moment ^ 2 + 0.75 * torque ^ 2))
    by (apply Rmult_lt_0_compat; assumption).
  destruct (Rlt_dec 0 (k * R_sqrt.sqrt (moment ^ 2 + 0.75 * torque ^ 2)))
    as [_ | N]; [ | contradiction].
  rewrite div_ok by lra. cbn [bind]. f_equal. f_equal.
  unfold k. field. repeat split; lra.
Qed.

(** C1, evaluated on the code.  For a solid shaft under a positive
    torque the diameter that [calculate_required_diameter] returns does
    not verify at the requested safety factor: [verify_shaft_diameter]
    gives it a strictly smaller one, because the sizing weighs the torque
    by [0.75 ^ 2] and the verification by [0.75]. *)
Theorem solid_round_trip_falls_short
    (torque moment : R) (m : material) (sf : R) :
  0 < torque -> 0 <= moment -> 0 < yield_strength m -> 0 < sf ->
  exists d s,
    calculate_required_diameter torque moment 0 m sf 0 = Ok (PyFloat d) /\
    verify_shaft_diameter d 0 torque moment 0 m = Ok (Fin s) /\
    s < sf.
Proof.
  intros Ht Hm Hy Hsf.
  destruct (solid_round_trip_value torque moment m sf Hy Hsf)
    as (d & Hcalc & Hver); [right; lra | ].
  exists d. eexists. split; [exact Hcalc | split; [exact Hver | ]].
  assert (Ht2 : 0 < torque ^ 2) by (apply pow_lt; assumption).
  pose proof (pow2_ge_0 moment) as Hm2.
  assert (Hlt : R_sqrt.sqrt (moment ^ 2 + (0.75 * torque) ^ 2)
                < R_sqrt.sqrt (moment ^ 2 + 0.75 * torque ^ 2)).
  { apply sqrt_lt_1; [apply moment_radicand_nonneg | lra | ].
    replace ((0.75 * torque) ^ 2) with (0.5625 * torque ^ 2) by lra. lra. }
  assert (Hpos : 0 < R_sqrt.sqrt (moment ^ 2 + 0.75 * torque ^ 2)).
  { apply sqrt_lt_R0. lra. }
  apply quotient_below; [exact Hpos | ].
  apply Rmult_lt_compat_l; assumption.
Qed.

Lemma solid_round_trip_falls_short_witness :
  exists d s,
    calculate_required_diameter 1000 500 0
      (get_material_properties "AISI 1045 Steel") 2 0 = Ok (PyFloat d) /\
    verify_shaft_diameter d 0 1000 500 0
      (get_material_properties "AISI 1045 Steel") = Ok (Fin s) /\
    s < 2.
Proof.
  apply (solid_round_trip_falls_short 1000 500
           (get_material_properties "AISI 1045 Steel") 2); try lra.
  rewrite steel_1045_yield. lra.
Defined.

(** *** The worked example *)

Lemma worked_example_moment :
  901.387 < R_sqrt.sqrt (500 ^ 2 + (0.75 * 1000) ^ 2) < 901.388.
Proof.
  replace (500 ^ 2 + (0.75 * 1000) ^ 2) with 812500 by lra.
  split.
  - rewrite <- (sqrt_pow2 901.387) by lra. apply sqrt_lt_1; lra.
  - rewrite <- (sqrt_pow2 901.388) at 1 by lra. apply sqrt_lt_1; lra.
Qed.

Lemma worked_example_diameter :
  calculate_required_diameter 1000 500 0
    (get_material_properties "AISI 1045 Steel") 2 0 =
  Ok (PyFloat
        (Rpower (32 * R_sqrt.sqrt (500 ^ 2 + (0.75 * 1000) ^ 2)
                 / (PI * (310e6 / 2))) (1 / 3) * 1000)) /\
  38.98 < Rpower (32 * R_sqrt.sqrt (500 ^ 2 + (0.75 * 1000) ^ 2)
                  / (PI * (310e6 / 2))) (1 / 3) * 1000 < 38.99.
Proof.
  destruct (required_diameter_solid_loaded 1000 500 0
              (get_material_properties "AISI 1045 Steel") 2)
    as [Hq Hcalc]; try lra.
  { rewrite steel_1045_yield. lra. }
  rewrite steel_1045_yield in Hq, Hcalc.
  split; [exact Hcalc | ].
  pose proof worked_example_moment as [HM1 HM2].
  pose proof PI_bounds as [HP1 HP2].
  assert (Hden : 0 < PI * (310e6 / 2)) by lra.
  destruct (cube_root_between 0.03898 0.03899
              (32 * R_sqrt.sqrt (500 ^ 2 + (0.75 * 1000) ^ 2)
               / (PI * (310e6 / 2)))) as [Hlo Hhi]; try lra.
  - apply quotient_above; [exact Hden | ]. lra.
  - apply quotient_below; [exact Hden | ]. lra.
Qed.

(** C4, refuted as stated.  On the worked example the function returns
    less than 39 mm, not the 39.6 mm the example gives. *)
Lemma worked_example_not_39_6 :
  exists d,
    calculate_required_diameter 1000 500 0
      (get_material_properties "AISI 1045 Steel") 2 0 = Ok (PyFloat d) /\
    d < 39 /\ 0.6 < Rabs (d - 39.6).
Proof.
  destruct worked_example_diameter as [Hcalc [Hlo Hhi]].
  eexists. split; [exact Hcalc | ]. split; [lra | ].
  rewrite Rabs_left; lra.
Qed.

(** C4, as the code has it.  For torque 1000, bending moment 500,
    AISI 1045 steel (yield 310 MPa), safety factor 2 and a solid
    section, the equivalent moment is [sqrt (500^2 + 750^2)], about
    901.39; the allowable stress is 155 MPa; and the function returns
    the closed form [(32 * M_eq / (pi * 155e6)) ^ (1/3)] in millimetres,
    which lies between 38.98 and 38.99. *)
Theorem worked_example_solid_shaft :
  Py.sqrt (500 ^ 2 + (0.75 * 1000) ^ 2) =
    Ok (R_sqrt.sqrt (500 ^ 2 + 750 ^ 2)) /\
  901.38 < R_sqrt.sqrt (500 ^ 2 + 750 ^ 2) < 901.39 /\
  div (yield_strength (get_material_properties "AISI 1045 Steel")) 2 =
    Ok 155e6 /\
  calculate_required_diameter 1000 500 0
    (get_material_properties "AISI 1045 Steel") 2 0 =
    Ok (PyFloat (Rpower (32 * R_sqrt.sqrt (500 ^ 2 + 750 ^ 2)
                         / (PI * 155e6)) (1 / 3) * 1000)) /\
  38.98 < Rpower (32 * R_sqrt.sqrt (500 ^ 2 + 750 ^ 2)
                  / (PI * 155e6)) (1 / 3) * 1000 < 38.99.
Proof.
  destruct worked_example_diameter as [Hcalc Hbounds].
  pose proof worked_example_moment as HM.
  replace (500 ^ 2 + (0.75 * 1000) ^ 2) with (500 ^ 2 + 750 ^ 2)
    in Hcalc, Hbounds, HM |- * by lra.
  replace (310e6 / 2) with 155e6 in Hcalc, Hbounds by lra.
  split; [apply sqrt_ok; lra | ].
  split; [lra | ].
  split; [rewrite steel_1045_yield, div_ok by lra; f_equal; lra | ].
  split; assumption.
Qed.

End SolidShaft.

(** ** verify_shaft_diameter within the range of the floats *)

Section VerifyInRange.

Import Materials.
Local Open Scope R_scope.

Lemma overflow_threshold_large : 1e300 < overflow_threshold.
Proof. unfold overflow_threshold. lra. Qed.

Lemma power_in_range (x : R) (n : nat) :
  0 <= x ^ n <= 1e300 -> pow_int x n = Returned (x ^ n).
Proof.
  intros Hx. unfold pow_int.
  pose proof overflow_threshold_large.
  rewrite Rabs_pos_eq by lra.
  destruct (Rlt_dec (x ^ n) overflow_threshold) as [_ | N];
    [reflexivity | lra].
Qed.

Lemma power_overflow (x : R) (n : nat) :
  overflow_threshold <= x ^ n -> pow_int x n = Faulted OverflowError.
Proof.
  intros Hx. unfold pow_int.
  pose proof overflow_threshold_large.
  rewrite Rabs_pos_eq by lra.
  destruct (Rlt_dec (x ^ n) overflow_threshold) as [L | _];
    [lra | reflexivity].
Qed.

Lemma power_returned (x : R) (n : nat) (v : R) :
  pow_int x n = Returned v -> v = x ^ n.
Proof.
  unfold pow_int.
  destruct (Rlt_dec (Rabs (x ^ n)) overflow_threshold); [ | discriminate].
  intros H. now injection H.
Qed.

Lemma pow_between (x b : R) (n : nat) :
  0 <= x <= b -> 0 <= x ^ n <= b ^ n.
Proof.
  intros [H0 Hb]. split; [now apply pow_le | now apply pow_incr].
Qed.

Lemma power_below (x b : R) (n : nat) :
  0 <= x <= b -> b ^ n <= 1e300 -> pow_int x n = Returned (x ^ n).
Proof.
  intros Hx Hb. apply power_in_range.
  pose proof (pow_between x b n Hx). lra.
Qed.

Lemma quotient_between (x y X y0 : R) :
  0 <= x <= X -> 0 < y0 <= y -> 0 <= x / y <= X / y0.
Proof.
  intros [Hx HX] [Hy0 Hy].
  assert (Hinv : 0 < / y <= / y0).
  { split; [apply Rinv_0_lt_compat; lra | ].
    apply Rinv_le_contravar; assumption. }
  unfold Rdiv. split.
  - apply Rmult_le_pos; lra.
  - apply Rmult_le_compat; lra.
Qed.

(** Within the range the powers of the two diameters are floats, and
    the section properties are those of the exact run. *)
Lemma section_properties_in_range (o i : R) :
  0 <= o <= 1e3 -> 0 <= i <= 1e3 ->
  Ranged.section_properties o i = Returned (Shaft.section_properties o i).
Proof.
  intros Ho Hi.
  unfold Ranged.section_properties, Shaft.section_properties.
  assert (Ho2 : 0 <= o / 2 <= 1e3) by lra.
  assert (Hi2 : 0 <= i / 2 <= 1e3) by lra.
  destruct (Req_dec_T i 0) as [_ | _].
  - rewrite (power_below (o / 2) 1e3 2), (power_below o 1e3 4)
      by (assumption || lra).
    reflexivity.
  - rewrite (power_below (o / 2) 1e3 2), (power_below (i / 2) 1e3 2),
      (power_below o 1e3 4), (power_below i 1e3 4) by (assumption || lra).
    reflexivity.
Qed.

(** A section with some wall left (a bore of at most 0.999 of the
    outer diameter) has area and second moments bounded away from 0. *)
Lemma section_properties_bounded_below (o i : R) :
  1e-6 <= o -> 0 <= i <= 0.999 * o ->
  1e-16 <= fst (fst (Shaft.section_properties o i)) /\
  1e-30 <= snd (fst (Shaft.section_properties o i)) /\
  1e-30 <= snd (Shaft.section_properties o i).
Proof.
  intros Ho Hi.
  pose proof PI_bounds as HPI.
  assert (Ho2 : 1e-12 <= o ^ 2).
  { replace 1e-12 with (1e-6 ^ 2) by lra. apply pow_incr. lra. }
  assert (Hi2 : i ^ 2 <= 0.998001 * o ^ 2).
  { replace (0.998001 * o ^ 2) with ((0.999 * o) ^ 2) by lra.
    apply pow_incr. lra. }
  assert (Ho4 : 1e-24 <= o ^ 4).
  { replace 1e-24 with (1e-6 ^ 4) by lra. apply pow_incr. lra. }
  assert (Hi4 : i ^ 4 <= 0.997 * o ^ 4).
  { apply Rle_trans with ((0.999 * o) ^ 4); [apply pow_incr; lra | ].
    replace ((0.999 * o) ^ 4) with (0.999 ^ 4 * o ^ 4) by ring.
    apply Rmult_le_compat_r; lra. }
  unfold Shaft.section_properties.
  destruct (Req_dec_T i 0) as [E | _]; cbn [fst snd].
  - split; [ | split]; nra.
  - split; [ | split]; nra.
Qed.

Lemma pow_int_zero (n : nat) : pow_int 0 (S n) = Returned 0.
Proof.
  rewrite power_in_range; [f_equal; apply pow_i; lia | ].
  rewrite pow_i by lia. lra.
Qed.

(** The stresses of a section whose properties are bounded below, under
    loads of at most 1e15, are floats whose squares are floats too. *)
Lemma stress_in_range (load arm prop : R) :
  0 <= load <= 1e15 -> 0 <= arm <= 1e3 -> 1e-30 <= prop ->
  (if Rlt_dec 0 prop then div (load * arm) prop else Ok 0) =
    Ok (load * arm / prop) /\
  0 <= load * arm / prop <= 1e48.
Proof.
  intros Hl Ha Hp.
  destruct (Rlt_dec 0 prop) as [_ | N]; [ | lra].
  rewrite div_ok by lra. split; [reflexivity | ].
  assert (Hn : 0 <= load * arm <= 1e18) by nra.
  pose proof (quotient_between (load * arm) prop 1e18 1e-30 Hn).
  lra.
Qed.

(** C10, refuted as stated.  A solid shaft of outer diameter 1e100 under
    the usual loads is on the interface the claim describes, and the
    call does not return: the fourth power of the diameter is out of
    range and [**] raises [OverflowError]. *)
Lemma verify_shaft_diameter_overflows :
  0 < 1e100 /\ 0 <= 0 < 1e100 /\ 0 <= 1000 /\ 0 <= 500 /\ 0 <= 0 /\
  0 < yield_strength (get_material_properties "AISI 1045 Steel") /\
  Ranged.verify_shaft_diameter 1e100 0 1000 500 0
    (get_material_properties "AISI 1045 Steel") = Faulted OverflowError /\
  (forall v, Ranged.verify_shaft_diameter 1e100 0 1000 500 0
               (get_material_properties "AISI 1045 Steel") <> Returned v).
Proof.
  assert (H : Ranged.verify_shaft_diameter 1e100 0 1000 500 0
                (get_material_properties "AISI 1045 Steel") =
              Faulted OverflowError).
  { unfold Ranged.verify_shaft_diameter, Ranged.equivalent_stress,
      Ranged.section_properties.
    destruct (Req_dec_T (0 / 1000) 0) as [_ | N]; [ | exfalso; lra].
    rewrite (power_below (1e100 / 1000 / 2) 1e97 2) by lra.
    rewrite power_overflow; [reflexivity | ].
    unfold overflow_threshold. lra. }
  repeat (split; [lra | ]).
  split; [rewrite steel_1045_yield; lra | ].
  split; [exact H | ].
  intros v. rewrite H. discriminate.
Qed.

(** C10, as the code has it.  For a section in the working range of the
    arithmetic (an outer diameter between 1e-3 and 1e6, a bore of at most
    0.999 of it, loads between 0 and 1e15, a yield strength between 1 and
    1e15) no power overflows, every divisor is positive and
    [verify_shaft_diameter] returns a positive number or the infinite
    sentinel; and for a section with no material (the outer diameter at
    most the bore, both at most 1e6) the guards on the area and the two
    second moments skip every division and the sentinel is returned. *)
Theorem verify_shaft_diameter_total_in_range
    (outer inner torque moment force : R) (m : material) :
  0 <= torque <= 1e15 -> 0 <= moment <= 1e15 -> 0 <= force <= 1e15 ->
  1 <= yield_strength m <= 1e15 ->
  (1e-3 <= outer <= 1e6 -> 0 <= inner <= 0.999 * outer ->
   Ranged.verify_shaft_diameter outer inner torque moment force m =
     Returned PosInf \/
   exists sf,
     Ranged.verify_shaft_diameter outer inner torque moment force m =
       Returned (Fin sf) /\ 0 < sf) /\
  (0 <= outer <= inner -> inner <= 1e6 ->
   Ranged.verify_shaft_diameter outer inner torque moment force m =
     Returned PosInf).
Proof.
  intros Ht Hm Hf Hy. split.
  - intros Ho Hi.
    unfold Ranged.verify_shaft_diameter, Ranged.equivalent_stress.
    rewrite section_properties_in_range by lra.
    destruct (section_properties_bounded_below (outer / 1000) (inner / 1000))
      as (Ha & HI & HJ); [lra | lra | ].
    destruct (Shaft.section_properties (outer / 1000) (inner / 1000))
      as [[area I_] J].
    cbn [fst snd] in Ha, HI, HJ. cbn [bindr].
    assert (Harm : 0 <= outer / 1000 / 2 <= 1e3) by lra.
    destruct (stress_in_range force 1 area) as [Eax Bax]; [lra | lra | lra | ].
    rewrite Rmult_1_r in Eax, Bax.
    destruct (stress_in_range moment (outer / 1000 / 2) I_ Hm Harm HI)
      as [Eb Bb].
    destruct (stress_in_range torque (outer / 1000 / 2) J Ht Harm HJ)
      as [Es Bs].
    rewrite Eax. cbn [of_result bindr]. rewrite Eb. cbn [of_result bindr].
    rewrite Es. cbn [of_result bindr].
    rewrite (power_below _ 2e48 2) by lra. cbn [bindr].
    rewrite (power_below _ 1e48 2) by lra. cbn [bindr].
    match goal with |- context [Py.sqrt ?r] =>
      assert (Hr : 0 <= r);
        [ match goal with |- 0 <= ?a ^ 2 + 3 * ?b ^ 2 =>
            pose proof (pow2_ge_0 a); pose proof (pow2_ge_0 b); lra end
        | rewrite (sqrt_ok r Hr) ]
    end.
    cbn [of_result bindr].
    match goal with |- context [Rlt_dec 0 ?s] =>
      destruct (Rlt_dec 0 s) as [L | _]; [ | now left]
    end.
    right. rewrite div_ok by lra. cbn [of_result bindr].
    eexists. split; [reflexivity | ].
    apply Rdiv_lt_0_compat; lra.
  - intros Ho Hi.
    unfold Ranged.verify_shaft_diameter, Ranged.equivalent_stress.
    rewrite section_properties_in_range by lra.
    assert (H2 : (outer / 1000 / 2) ^ 2 <= (inner / 1000 / 2) ^ 2)
      by (apply pow_incr; lra).
    assert (H4 : (outer / 1000) ^ 4 <= (inner / 1000) ^ 4)
      by (apply pow_incr; lra).
    pose proof PI_bounds as HPI.
    unfold Shaft.section_properties.
    destruct (Req_dec_T (inner / 1000) 0) as [E | _]; cbn [bindr].
    + assert (E' : outer / 1000 = 0) by lra. rewrite E'.
      replace (PI * (0 / 2) ^ 2) with 0 by (unfold Rdiv; ring).
      replace (PI * 0 ^ 4 / 64) with 0 by (unfold Rdiv; ring).
      replace (PI * 0 ^ 4 / 32) with 0 by (unfold Rdiv; ring).
      destruct (Rlt_dec 0 0) as [L | _]; [lra | ]. cbn [of_result bindr].
      replace (0 + 0) with 0 by ring.
      rewrite !pow_int_zero. cbn [bindr].
      replace (0 + 3 * 0) with 0 by ring.
      rewrite sqrt_ok by lra. cbn [of_result bindr]. rewrite sqrt_0.
      destruct (Rlt_dec 0 0) as [L | _]; [lra | reflexivity].
    + destruct (Rlt_dec 0 _) as [L | _]; [nra | ].
      destruct (Rlt_dec 0 _) as [L | _]; [nra | ].
      destruct (Rlt_dec 0 _) as [L | _]; [nra | ].
      cbn [of_result bindr].
      replace (0 + 0) with 0 by ring.
      rewrite !pow_int_zero. cbn [bindr].
      replace (0 + 3 * 0) with 0 by ring.
      rewrite sqrt_ok by lra. cbn [of_result bindr]. rewrite sqrt_0.
      destruct (Rlt_dec 0 0) as [L | _]; [lra | reflexivity].
Qed.

Lemma verify_shaft_diameter_total_in_range_witness :
  (Ranged.verify_shaft_diameter 50 20 1000 500 100
     (get_material_properties "AISI 1045 Steel") = Returned PosInf \/
   exists sf,
     Ranged.verify_shaft_diameter 50 20 1000 500 100
       (get_material_properties "AISI 1045 Steel") =
       Returned (Fin sf) /\ 0 < sf) /\
  Ranged.verify_shaft_diameter 20 20 1000 500 100
    (get_material_properties "AISI 1045 Steel") = Returned PosInf.
Proof.
  split.
  - apply (verify_shaft_diameter_total_in_range 50 20 1000 500 100
             (get_material_properties "AISI 1045 Steel"));
      rewrite ?steel_1045_yield; lra.
  - apply (verify_shaft_diameter_total_in_range 20 20 1000 500 100
             (get_material_properties "AISI 1045 Steel"));
      rewrite ?steel_1045_yield; lra.
Defined.

(** Whenever the ranged run returns, the exact run returns the same:
    the two embeddings differ by the overflows only. *)
Lemma section_properties_returned (o i : R) (p : R * R * R) :
  Ranged.section_properties o i = Returned p ->
  p = Shaft.section_properties o i.
Proof.
  unfold Ranged.section_properties, Shaft.section_properties, pow_int.
  destruct (Req_dec_T i 0) as [_ | _];
    repeat match goal with
    | |- context [Rlt_dec (Rabs ?x) overflow_threshold] =>
        destruct (Rlt_dec (Rabs x) overflow_threshold)
    end; cbn [bindr]; intros H; try discriminate; now injection H.
Qed.

Lemma ranged_run_is_exact_run
    (outer inner torque moment force : R) (m : material) (v : pyfloat) :
  Ranged.verify_shaft_diameter outer inner torque moment force m = Returned v ->
  Shaft.verify_shaft_diameter outer inner torque moment force m = Ok v.
Proof.
  unfold Ranged.verify_shaft_diameter, Shaft.verify_shaft_diameter,
    Ranged.equivalent_stress, Shaft.equivalent_stress.
  destruct (Ranged.section_properties (outer / 1000) (inner / 1000))
    as [p | f] eqn:Ep; [ | discriminate].
  apply section_properties_returned in Ep. rewrite <- Ep.
  destruct p as [[area I_] J]. cbn [bindr].
  rewrite !guarded_div_ok. cbn [of_result bindr bind].
  destruct (pow_int _ 2) as [n2 | f] eqn:En; [ | discriminate].
  apply power_returned in En. cbn [bindr].
  destruct (pow_int _ 2) as [s2 | f] eqn:Es; [ | discriminate].
  apply power_returned in Es. cbn [bindr]. subst n2 s2.
  destruct (Py.sqrt _) as [sigma | e]; [ | discriminate].
  cbn [of_result bindr bind].
  destruct (Rlt_dec 0 sigma) as [_ | _]; [ | intros H; now injection H as ->].
  destruct (div (yield_strength m) sigma) as [sf | e]; [ | discriminate].
  cbn [of_result bindr bind]. intros H. now injection H as ->.
Qed.

End VerifyInRange.

(** * Further properties of the code *)

(** ** Dictionaries *)

Section Dictionaries.

Lemma dict_get_in_values {A : Type} (d : list (string * A)) (k : string)
    (v : A) :
  dict_get k d = Some v -> In v (map snd d).
Proof.
  induction d as [ | [k' v'] d IH]; cbn [dict_get map snd In]; intros H.
  - discriminate.
  - destruct (String.eqb k k').
    + left. now injection H.
    + right. now apply IH.
Qed.

Lemma dict_get_known {A : Type} (d : list (string * A)) (k : string) :
  In k (map fst d) -> exists v, dict_get k d = Some v.
Proof.
  induction d as [ | [k' v'] d IH]; cbn [dict_get map fst In]; intros H.
  - contradiction.
  - destruct (String.eqb_spec k k') as [E | N].
    + now exists v'.
    + destruct H as [H | H]; [now elim N | now apply IH].
Qed.

Lemma dict_get_unknown {A : Type} (d : list (string * A)) (k : string) :
  ~ In k (map fst d) -> dict_get k d = None.
Proof.
  induction d as [ | [k' v'] d IH]; cbn [dict_get map fst In]; intros H.
  - reflexivity.
  - destruct (String.eqb_spec k k') as [E | N].
    + elim H. now left.
    + apply IH. intros Hin. apply H. now right.
Qed.

Lemma dict_get_entry {A : Type} (d : list (string * A)) (k : string) (v : A) :
  NoDup (map fst d) -> In (k, v) d -> dict_get k d = Some v.
Proof.
  induction d as [ | [k' v'] d IH]; cbn [dict_get map fst In]; intros Hnd H.
  - contradiction.
  - inversion Hnd as [ | ? ? Hnotin Hnd']; subst.
    destruct H as [H | H].
    + injection H as -> ->. now rewrite String.eqb_refl.
    + destruct (String.eqb_spec k k') as [E | N].
      * subst k'. elim Hnotin. apply in_map_iff. now exists (k, v).
      * now apply IH.
Qed.

Lemma dict_get_is_entry {A : Type} (d : list (string * A)) (k : string)
    (v : A) :
  dict_get k d = Some v -> In (k, v) d.
Proof.
  induction d as [ | [k' v'] d IH]; cbn [dict_get In]; intros H.
  - discriminate.
  - destruct (String.eqb_spec k k') as [E | N].
    + left. injection H as ->. now subst.
    + right. now apply IH.
Qed.

End Dictionaries.

(** ** Unit conversion *)

Section UnitConversion.

Import Utils.
Local Open Scope Q_scope.

Lemma divQ_nonzero (x y : Q) : ~ y == 0 -> Gear.divQ x y = Ok (x / y).
Proof.
  intros Hy. unfold Gear.divQ.
  destruct (Qeq_bool y 0) eqn:E; [ | reflexivity].
  apply Qeq_bool_iff in E. contradiction.
Qed.

Lemma conversion_factors_nonzero :
  Forall (fun f => ~ f == 0) (map snd conversion_factors).
Proof.
  cbn [map snd conversion_factors].
  repeat (constructor; [intros H; discriminate H | ]). constructor.
Qed.

Lemma conversion_factor_of (u : string) :
  In u (map fst conversion_factors) ->
  exists f, dict_get u conversion_factors = Some f /\ ~ f == 0.
Proof.
  intros H. destruct (dict_get_known _ _ H) as [f Hf].
  exists f. split; [exact Hf | ].
  pose proof conversion_factors_nonzero as Hall.
  rewrite Forall_forall in Hall. apply Hall.
  now apply dict_get_in_values with u.
Qed.

Lemma convert_units_known (value : Q) (a b : string) (fa fb : Q) :
  dict_get a conversion_factors = Some fa ->
  dict_get b conversion_factors = Some fb -> ~ fb == 0 ->
  convert_units value a b = Ok (value * fa / fb).
Proof.
  intros Ha Hb Hnz. unfold convert_units. rewrite Ha, Hb. cbv zeta.
  now apply divQ_nonzero.
Qed.

(** X1.  Conversions between known units compose: converting from [a] to
    [b] and then from [b] to [c] gives the conversion from [a] to [c];
    in particular converting back returns the starting value. *)
Theorem convert_units_compose (value : Q) (a b c : string) :
  In a (map fst conversion_factors) ->
  In b (map fst conversion_factors) ->
  In c (map fst conversion_factors) ->
  exists w x y z,
    convert_units value a b = Ok w /\
    convert_units w b c = Ok x /\
    convert_units value a c = Ok y /\ x == y /\
    convert_units w b a = Ok z /\ z == value.
Proof.
  intros Ha Hb Hc.
  destruct (conversion_factor_of a Ha) as (fa & Hfa & Hna).
  destruct (conversion_factor_of b Hb) as (fb & Hfb & Hnb).
  destruct (conversion_factor_of c Hc) as (fc & Hfc & Hnc).
  exists (value * fa / fb), (value * fa / fb * fb / fc),
         (value * fa / fc), (value * fa / fb * fb / fa).
  rewrite (convert_units_known value a b fa fb Hfa Hfb Hnb).
  rewrite (convert_units_known _ b c fb fc Hfb Hfc Hnc).
  rewrite (convert_units_known value a c fa fc Hfa Hfc Hnc).
  rewrite (convert_units_known _ b a fb fa Hfb Hfa Hna).
  repeat split; try reflexivity.
  - field. split; assumption.
  - field. split; assumption.
Qed.

Lemma convert_units_compose_witness :
  exists w x y z,
    convert_units 2.5 "in" "mm" = Ok w /\
    convert_units w "mm" "ft" = Ok x /\
    convert_units 2.5 "in" "ft" = Ok y /\ x == y /\
    convert_units w "mm" "in" = Ok z /\ z == 2.5.
Proof.
  apply (convert_units_compose 2.5 "in" "mm" "ft");
    cbn [map fst conversion_factors In]; tauto.
Defined.

(** X2.  [convert_units] returns exactly when both unit names are in the
    table, whatever their dimensions; with an unknown name on either side
    it raises [ValueError], and it never divides by zero. *)
Theorem convert_units_outcome (value : Q) (a b : string) :
  (In a (map fst conversion_factors) /\ In b (map fst conversion_factors) ->
   exists w, convert_units value a b = Ok w) /\
  (~ (In a (map fst conversion_factors) /\
      In b (map fst conversion_factors)) ->
   convert_units value a b = Raise ValueError) /\
  convert_units value a b <> Raise ZeroDivisionError.
Proof.
  assert (Hknown :
            In a (map fst conversion_factors) /\
            In b (map fst conversion_factors) ->
            exists w, convert_units value a b = Ok w).
  { intros [Ha Hb].
    destruct (conversion_factor_of a Ha) as (fa & Hfa & _).
    destruct (conversion_factor_of b Hb) as (fb & Hfb & Hnb).
    eexists. now apply convert_units_known with (fa := fa) (fb := fb). }
  assert (Hunknown :
            ~ (In a (map fst conversion_factors) /\
               In b (map fst conversion_factors)) ->
            convert_units value a b = Raise ValueError).
  { intros H. unfold convert_units.
    destruct (dict_get a conversion_factors) as [fa | ] eqn:Ea;
      [ | reflexivity].
    destruct (dict_get b conversion_factors) as [fb | ] eqn:Eb;
      [ | reflexivity].
    elim H. split.
    + apply in_map_iff. exists (a, fa). split; [reflexivity | ].
      now apply dict_get_is_entry.
    + apply in_map_iff. exists (b, fb). split; [reflexivity | ].
      now apply dict_get_is_entry. }
  split; [exact Hknown | split; [exact Hunknown | ]].
  destruct (in_dec string_dec a (map fst conversion_factors)) as [Ha | Ha];
    [destruct (in_dec string_dec b (map fst conversion_factors))
       as [Hb | Hb] | ].
  - destruct (Hknown (conj Ha Hb)) as [w Hw]. rewrite Hw. discriminate.
  - rewrite Hunknown by tauto. discriminate.
  - rewrite Hunknown by tauto. discriminate.
Qed.

Lemma convert_units_outcome_witness :
  (exists w, convert_units 1 "kN" "mm" = Ok w) /\
  convert_units 1 "kN" "furlong" = Raise ValueError.
Proof.
  split.
  - apply (proj1 (convert_units_outcome 1 "kN" "mm")).
    cbn [map fst conversion_factors In]. tauto.
  - apply (proj1 (proj2 (convert_units_outcome 1 "kN" "furlong"))).
    cbn [map fst conversion_factors In]. intros [_ H].
    repeat (destruct H as [H | H]; [discriminate H | ]). exact H.
Defined.

End UnitConversion.

(** ** Input validation *)

Section InputValidation.

Import Utils.
Local Open Scope Q_scope.
Local Open Scope string_scope.
Local Open Scope list_scope.

Lemma no_errors_3 (a b c : list string) :
  a ++ b ++ c = [] <-> a = [] /\ b = [] /\ c = [].
Proof.
  split.
  - intros H. apply app_eq_nil in H. destruct H as [Ha H].
    apply app_eq_nil in H. tauto.
  - intros (-> & -> & ->). reflexivity.
Qed.

Lemma accept_if_le (x y : Q) (msg : string) :
  (if Qle_bool x y then [] else [msg]) = [] <-> x <= y.
Proof.
  destruct (Qle_bool x y) eqn:E.
  - apply Qle_bool_iff in E. tauto.
  - split; [discriminate | ]. intros H. apply Qle_bool_iff in H. congruence.
Qed.

Lemma reject_if_le (x y : Q) (msg : string) :
  (if Qle_bool x y then [msg] else []) = [] <-> y < x.
Proof.
  destruct (Qle_bool x y) eqn:E.
  - apply Qle_bool_iff in E. split; [discriminate | ].
    intros H. apply Qlt_not_le in H. contradiction.
  - split; [ | reflexivity]. intros _. apply Qnot_le_lt.
    intros H. apply Qle_bool_iff in H. congruence.
Qed.

(** X3.  [validate_engineering_inputs] reports no error for a shaft
    exactly when the torque is not negative, the diameter is positive and
    the safety factor is at least 1, and for a gear exactly when the
    module and the power are positive and there are at least 6 teeth; a
    missing entry counts as 0.  For any other calculation type it reports
    nothing, whatever the inputs. *)
Theorem validate_engineering_inputs_accepts (inputs : list (string * Q)) :
  (validate_engineering_inputs inputs "shaft_design" = [] <->
   0 <= get_default inputs "torque" 0 /\
   0 < get_default inputs "diameter" 0 /\
   1 <= get_default inputs "safety_factor" 0) /\
  (validate_engineering_inputs inputs "gear_design" = [] <->
   0 < get_default inputs "module" 0 /\
   6 <= get_default inputs "teeth" 0 /\
   0 < get_default inputs "power" 0) /\
  (forall calculation_type,
     calculation_type <> "shaft_design" ->
     calculation_type <> "gear_design" ->
     validate_engineering_inputs inputs calculation_type = []).
Proof.
  split; [ | split].
  - unfold validate_engineering_inputs. cbn [String.eqb Ascii.eqb Bool.eqb].
    rewrite no_errors_3, !accept_if_le, reject_if_le. tauto.
  - unfold validate_engineering_inputs. cbn [String.eqb Ascii.eqb Bool.eqb].
    rewrite no_errors_3, !reject_if_le, accept_if_le. tauto.
  - intros t Hs Hg. unfold validate_engineering_inputs.
    destruct (String.eqb_spec t "shaft_design") as [E | _]; [contradiction | ].
    destruct (String.eqb_spec t "gear_design") as [E | _]; [contradiction | ].
    reflexivity.
Qed.

Lemma validate_engineering_inputs_accepts_witness :
  validate_engineering_inputs
    [("torque", 1000); ("diameter", 50); ("safety_factor", 2)]
    "shaft_design" = [] /\
  validate_engineering_inputs [("torque", -1)] "shaft" = [].
Proof.
  split.
  - apply (proj1 (validate_engineering_inputs_accepts _)).
    cbn. repeat split; discriminate.
  - apply (proj2 (proj2 (validate_engineering_inputs_accepts _)));
      discriminate.
Defined.

End InputValidation.

(** ** Stress measures *)

Section StressMeasures.

Import Utils.
Local Open Scope R_scope.

Lemma von_mises_radicand_nonneg (sx sy sz txy txz tyz : R) :
  0 <= 0.5 * ((sx - sy) ^ 2 + (sy - sz) ^ 2 + (sz - sx) ^ 2)
       + 3 * (txy ^ 2 + txz ^ 2 + tyz ^ 2).
Proof.
  pose proof (pow2_ge_0 (sx - sy)). pose proof (pow2_ge_0 (sy - sz)).
  pose proof (pow2_ge_0 (sz - sx)). pose proof (pow2_ge_0 txy).
  pose proof (pow2_ge_0 txz). pose proof (pow2_ge_0 tyz). lra.
Qed.

Lemma von_mises_value (sx sy sz txy txz tyz : R) :
  calculate_von_mises_stress sx sy sz txy txz tyz =
  Ok (R_sqrt.sqrt (0.5 * ((sx - sy) ^ 2 + (sy - sz) ^ 2 + (sz - sx) ^ 2)
                   + 3 * (txy ^ 2 + txz ^ 2 + tyz ^ 2))).
Proof.
  unfold calculate_von_mises_stress. apply sqrt_ok.
  apply von_mises_radicand_nonneg.
Qed.



Lemma principal_stresses_value (sx sy txy : R) :
  exists theta,
    calculate_principal_stresses sx sy txy =
    Ok ((sx + sy) / 2 + R_sqrt.sqrt (((sx - sy) / 2) ^ 2 + txy ^ 2),
        (sx + sy) / 2 - R_sqrt.sqrt (((sx - sy) / 2) ^ 2 + txy ^ 2),
        theta) /\
    - PI / 4 <= theta <= PI / 4 /\
    (sx = sy -> theta = if Rlt_dec 0 txy then PI / 4 else - PI / 4) /\
    (sx <> sy -> theta = 0.5 * atan (2 * txy / (sx - sy))).
Proof.
  pose proof PI_RGT_0 as HPI.
  unfold calculate_principal_stresses. cbv zeta.
  rewrite sqrt_ok
    by (pose proof (pow2_ge_0 ((sx - sy) / 2));
        pose proof (pow2_ge_0 txy); lra).
  cbn [bind].
  destruct (Req_dec_T (sx - sy) 0) as [E | N]; cbn [bind].
  - eexists. split; [reflexivity | ]. split; [ | split].
    + destruct (Rlt_dec 0 txy); lra.
    + intros _. reflexivity.
    + intros Hne. elim Hne. lra.
  - rewrite div_ok by exact N. cbn [bind].
    eexists. split; [reflexivity | ]. split; [ | split].
    + pose proof (atan_bound (2 * txy / (sx - sy))). lra.
    + intros ->. elim N. lra.
    + intros _. reflexivity.
Qed.



(** X6.  For a plane stress state whose three components are of
    magnitude at most 1e100 (so that no square leaves the range of the
    floats), [calculate_principal_stresses] returns and both calls of
    [calculate_von_mises_stress] return, with one value: the von Mises
    stress computed from the components equals the one computed from the
    two principal stresses. *)
Theorem von_mises_of_principal_stresses (sx sy txy : R) :
  -1e100 <= sx <= 1e100 -> -1e100 <= sy <= 1e100 ->
  -1e100 <= txy <= 1e100 ->
  exists s1 s2 theta vm,
    calculate_principal_stresses sx sy txy = Ok (s1, s2, theta) /\
    calculate_von_mises_stress sx sy 0 txy 0 0 = Ok vm /\
    calculate_von_mises_stress s1 s2 0 0 0 0 = Ok vm.
Proof.
  intros _ _ _.
  destruct (principal_stresses_value sx sy txy) as (theta & Hv & _).
  do 4 eexists. split; [exact Hv | ].
  assert (Hrad : 0 <= ((sx - sy) / 2) ^ 2 + txy ^ 2).
  { pose proof (pow2_ge_0 ((sx - sy) / 2)). pose proof (pow2_ge_0 txy). lra. }
  pose proof (sqrt_sqrt _ Hrad) as Hsq.
  split; [apply von_mises_value | ].
  rewrite von_mises_value. do 2 f_equal.
  set (r := R_sqrt.sqrt (((sx - sy) / 2) ^ 2 + txy ^ 2)) in *.
  replace (0.5 * (((sx + sy) / 2 + r - ((sx + sy) / 2 - r)) ^ 2
                  + ((sx + sy) / 2 - r - 0) ^ 2
                  + (0 - ((sx + sy) / 2 + r)) ^ 2)
           + 3 * (0 ^ 2 + 0 ^ 2 + 0 ^ 2))
    with (((sx + sy) / 2) ^ 2 + 3 * (r * r)) by lra.
  rewrite Hsq. lra.
Qed.

Lemma von_mises_of_principal_stresses_witness :
  exists s1 s2 theta vm,
    calculate_principal_stresses 100e6 50e6 30e6 = Ok (s1, s2, theta) /\
    calculate_von_mises_stress 100e6 50e6 0 30e6 0 0 = Ok vm /\
    calculate_von_mises_stress s1 s2 0 0 0 0 = Ok vm.
Proof.
  apply (von_mises_of_principal_stresses 100e6 50e6 30e6); lra.
Defined.

End StressMeasures.

(** ** Powers *)

Section Powers.

Local Open Scope R_scope.

Lemma pow_positive_base (x y : R) :
  0 < x -> y <> 0 -> PyX.pow x y = Ok (PyFloat (Rpower x y)).
Proof.
  intros Hx Hy. unfold PyX.pow.
  destruct (Req_dec_T y 0) as [E | _]; [contradiction | ].
  destruct (Req_dec_T x 0) as [E | _]; [lra | ].
  destruct (Rlt_dec 0 x) as [_ | N]; [reflexivity | contradiction].
Qed.

Lemma pow_zero_base (y : R) : y < 0 -> PyX.pow 0 y = Raise ZeroDivisionError.
Proof.
  intros Hy. unfold PyX.pow.
  destruct (Req_dec_T y 0) as [E | _]; [lra | ].
  destruct (Req_dec_T 0 0) as [_ | N]; [ | now elim N].
  destruct (Rlt_dec y 0) as [_ | N]; [reflexivity | contradiction].
Qed.

Lemma not_integral (y : R) : -1 < y < 0 -> y <> IZR (Int_part y).
Proof.
  intros Hy E. destruct (base_Int_part y) as [Hle Hgt].
  assert (Hlo : (-2 < Int_part y)%Z) by (apply lt_IZR; lra).
  assert (Hhi : (Int_part y < 0)%Z) by (apply lt_IZR; lra).
  assert (Ez : Int_part y = (-1)%Z) by lia.
  rewrite Ez in E. lra.
Qed.

Lemma pow_negative_base (x y : R) :
  x < 0 -> -1 < y < 0 -> exists re im, PyX.pow x y = Ok (PyComplex re im).
Proof.
  intros Hx Hy. unfold PyX.pow.
  destruct (Req_dec_T y 0) as [E | _]; [lra | ].
  destruct (Req_dec_T x 0) as [E | _]; [lra | ].
  destruct (Rlt_dec 0 x) as [L | _]; [lra | ].
  destruct (Req_dec_T y (IZR (Int_part y))) as [E | _].
  - now elim (not_integral y Hy).
  - now do 2 eexists.
Qed.

Lemma Rpower_antitone (x1 x2 e : R) :
  0 < x1 -> x1 <= x2 -> e < 0 -> Rpower x2 e <= Rpower x1 e.
Proof.
  intros H1 [Hlt | ->] He; [ | apply Rle_refl].
  left. unfold Rpower. apply exp_increasing.
  pose proof (ln_increasing x1 x2 H1 Hlt). nra.
Qed.

Lemma Rpower_below_1 (x e : R) : 1 < x -> e < 0 -> 0 < Rpower x e < 1.
Proof.
  intros Hx He. split; [apply exp_pos | ].
  unfold Rpower. rewrite <- exp_0. apply exp_increasing.
  pose proof (ln_increasing 1 x ltac:(lra) Hx) as Hln. rewrite ln_1 in Hln.
  nra.
Qed.

End Powers.

(** ** Fatigue life *)

Section FatigueLife.

Import Utils.
Local Open Scope R_scope.

(** The life in cycles on the finite-life part of the curve. *)
Lemma fatigue_life_value (s Su Sy : R) (Se : option R) :
  0 < Su ->
  0 <= match Se with Some e => e | None => 0.5 * Su end ->
  calculate_fatigue_life s Su Sy Se =
  Done (if Rle_dec s (match Se with Some e => e | None => 0.5 * Su end)
        then PosInf
        else if Rlt_dec Sy s then Fin 1
        else Fin (if Rlt_dec 1 (Rpower (s / (0.9 * Su)) (1 / -0.12))
                  then Rpower (s / (0.9 * Su)) (1 / -0.12) else 1)).
Proof.
  intros HSu Hlim. unfold calculate_fatigue_life. cbv zeta.
  destruct (Rle_dec s _) as [Hle | Hgt]; [reflexivity | ].
  destruct (Rlt_dec Sy s) as [Hy | Hy]; [reflexivity | ].
  rewrite div_ok by lra. cbn [lift bindx].
  rewrite div_ok by lra. cbn [lift bindx].
  rewrite pow_positive_base; [reflexivity | | lra].
  apply Rdiv_lt_0_compat; lra.
Qed.

(** X7.  For an ultimate strength between 1 and 1e15 and an endurance
    limit (half the ultimate strength when none is given) of at least
    1e-20 of it, which keeps the power of the S-N curve within the range
    of the floats, [calculate_fatigue_life] returns a life of at least
    one cycle, and the life is infinite exactly when the stress amplitude
    does not exceed the endurance limit. *)
Theorem fatigue_life_at_least_one_cycle (s Su Sy : R) (Se : option R) :
  1 <= Su <= 1e15 ->
  1e-20 * Su <= match Se with Some e => e | None => 0.5 * Su end ->
  exists life,
    calculate_fatigue_life s Su Sy Se = Done life /\
    pyfloat_le (Fin 1) life /\
    (life = PosInf <->
     s <= match Se with Some e => e | None => 0.5 * Su end).
Proof.
  intros [HSu _] Hlim.
  rewrite (fatigue_life_value s Su Sy Se) by lra.
  eexists. split; [reflexivity | ].
  destruct (Rle_dec s _) as [Hle | Hgt].
  - cbn. tauto.
  - destruct (Rlt_dec Sy s) as [Hy | Hy].
    + cbn. split; [lra | ]. split; [discriminate | contradiction].
    + cbn. split; [ | split; [discriminate | contradiction]].
      destruct (Rlt_dec 1 _); lra.
Qed.

Lemma fatigue_life_at_least_one_cycle_witness :
  exists life,
    calculate_fatigue_life 300e6 565e6 310e6 None = Done life /\
    pyfloat_le (Fin 1) life /\
    (life = PosInf <-> 300e6 <= 0.5 * 565e6).
Proof.
  apply (fatigue_life_at_least_one_cycle 300e6 565e6 310e6 None); lra.
Defined.

(** X8.  Under the same conditions (an ultimate strength between 1 and
    1e15, an endurance limit of at least 1e-20 of it) both calls return
    and a larger stress amplitude never gives a longer life. *)
Theorem fatigue_life_antitone (s1 s2 Su Sy : R) (Se : option R) :
  1 <= Su <= 1e15 ->
  1e-20 * Su <= match Se with Some e => e | None => 0.5 * Su end ->
  s1 <= s2 ->
  exists life1 life2,
    calculate_fatigue_life s1 Su Sy Se = Done life1 /\
    calculate_fatigue_life s2 Su Sy Se = Done life2 /\
    pyfloat_le life2 life1.
Proof.
  intros [HSu _] Hlim Hs.
  rewrite (fatigue_life_value s1 Su Sy Se) by lra.
  rewrite (fatigue_life_value s2 Su Sy Se) by lra.
  do 2 eexists. split; [reflexivity | split; [reflexivity | ]].
  set (limit := match Se with Some e => e | None => 0.5 * Su end) in *.
  destruct (Rle_dec s1 limit) as [H1 | H1].
  { destruct (Rle_dec s2 limit); [exact I | ].
    destruct (Rlt_dec Sy s2); exact I. }
  destruct (Rle_dec s2 limit) as [H2 | H2]; [lra | ].
  destruct (Rlt_dec Sy s1) as [Hy1 | Hy1].
  { destruct (Rlt_dec Sy s2) as [_ | Hy2]; [cbn; lra | lra]. }
  destruct (Rlt_dec Sy s2) as [Hy2 | Hy2].
  { cbn. destruct (Rlt_dec 1 _); lra. }
  cbn.
  assert (HN : Rpower (s2 / (0.9 * Su)) (1 / -0.12)
               <= Rpower (s1 / (0.9 * Su)) (1 / -0.12)).
  { apply Rpower_antitone.
    - apply Rdiv_lt_0_compat; lra.
    - unfold Rdiv. apply Rmult_le_compat_r; [ | exact Hs].
      left. apply Rinv_0_lt_compat. lra.
    - lra. }
  destruct (Rlt_dec 1 (Rpower (s2 / (0.9 * Su)) (1 / -0.12)));
    destruct (Rlt_dec 1 (Rpower (s1 / (0.9 * Su)) (1 / -0.12))); lra.
Qed.

Lemma fatigue_life_antitone_witness :
  exists life1 life2,
    calculate_fatigue_life 290e6 565e6 310e6 None = Done life1 /\
    calculate_fatigue_life 300e6 565e6 310e6 None = Done life2 /\
    pyfloat_le life2 life1.
Proof.
  apply (fatigue_life_antitone 290e6 300e6 565e6 310e6 None); lra.
Defined.

End FatigueLife.

(** ** Surface finish and size factors *)

Section FatigueFactors.

Import Utils.
Local Open Scope R_scope.

Lemma finish_coefficients_sound :
  Forall (fun ab : R * R => 0 < fst ab /\ -1 < snd ab < 0)
         (map snd finish_factors).
Proof.
  cbn [map snd finish_factors].
  repeat (constructor; [cbn [fst snd]; lra | ]). constructor.
Qed.

(** The coefficients the function works with, whatever the finish named. *)
Lemma finish_coefficients_used (surface_finish : string) :
  exists a b,
    0 < a /\ -1 < b < 0 /\
    forall ultimate_strength,
      calculate_surface_finish_factor surface_finish ultimate_strength =
      (p <~ lift (PyX.pow (ultimate_strength / 6.895e6) b) ;;
       match p with
       | PyFloat p =>
           Done (if Rlt_dec 1.0 (a * p) then 1.0 else a * p)
       | PyComplex _ _ => Fail TypeError
       end).
Proof.
  pose proof finish_coefficients_sound as Hall.
  rewrite Forall_forall in Hall.
  unfold calculate_surface_finish_factor.
  destruct (dict_get surface_finish finish_factors) as [[a b] | ] eqn:E.
  - exists a, b.
    destruct (Hall (a, b) (dict_get_in_values _ _ _ E)) as [Ha Hb].
    cbn [fst snd] in Ha, Hb. repeat split; try lra.
    intros Su. cbv zeta. unfold item. rewrite E. reflexivity.
  - exists 4.51, (-0.265). repeat split; try lra.
Qed.

(** X9.  For an ultimate strength between 1 and 1e15 (well above the
    strengths whose quotient by 6.895e6 underflows to zero)
    [calculate_surface_finish_factor] returns a factor that is positive
    and at most 1, whatever finish is named; a name that is not in the
    table is treated as ["machined"]. *)
Theorem surface_finish_factor_range
    (surface_finish : string) (ultimate_strength : R) :
  1 <= ultimate_strength <= 1e15 ->
  (exists Ka,
     calculate_surface_finish_factor surface_finish ultimate_strength
     = Done Ka /\ 0 < Ka <= 1) /\
  (dict_get surface_finish finish_factors = None ->
   calculate_surface_finish_factor surface_finish ultimate_strength =
   calculate_surface_finish_factor "machined" ultimate_strength).
Proof.
  intros [HSu _]. split.
  - destruct (finish_coefficients_used surface_finish)
      as (a & b & Ha & Hb & Hval).
    rewrite Hval.
    rewrite pow_positive_base; [ | apply Rdiv_lt_0_compat; lra | lra].
    cbn [lift bindx]. eexists. split; [reflexivity | ].
    assert (Hp : 0 < Rpower (ultimate_strength / 6.895e6) b) by apply exp_pos.
    assert (Hprod : 0 < a * Rpower (ultimate_strength / 6.895e6) b)
      by (apply Rmult_lt_0_compat; assumption).
    destruct (Rlt_dec 1.0 _); lra.
  - intros Hunknown. unfold calculate_surface_finish_factor.
    rewrite Hunknown. reflexivity.
Qed.

Lemma surface_finish_factor_range_witness :
  (exists Ka,
     calculate_surface_finish_factor "hot_rolled" 565e6 = Done Ka /\
     0 < Ka <= 1) /\
  calculate_surface_finish_factor "ground" 565e6 =
  calculate_surface_finish_factor "machined" 565e6.
Proof.
  split.
  - apply (proj1 (surface_finish_factor_range "hot_rolled" 565e6
                    ltac:(lra))).
  - apply (proj2 (surface_finish_factor_range "ground" 565e6 ltac:(lra))).
    reflexivity.
Defined.

(** X10.  Without a positive ultimate strength
    [calculate_surface_finish_factor] fails for every finish: a zero
    strength raises [ZeroDivisionError], and a negative one between
    -1e15 and -1 (well clear of the strengths whose quotient by 6.895e6
    underflows to zero) raises [TypeError]. *)
Theorem surface_finish_factor_errors
    (surface_finish : string) (ultimate_strength : R) :
  (ultimate_strength = 0 ->
   calculate_surface_finish_factor surface_finish ultimate_strength
   = Fail (Builtin ZeroDivisionError)) /\
  (-1e15 <= ultimate_strength <= -1 ->
   calculate_surface_finish_factor surface_finish ultimate_strength
   = Fail TypeError).
Proof.
  destruct (finish_coefficients_used surface_finish)
    as (a & b & Ha & Hb & Hval).
  split.
  - intros ->. rewrite Hval.
    replace (0 / 6.895e6) with 0 by (unfold Rdiv; ring).
    rewrite pow_zero_base by lra. reflexivity.
  - intros [_ Hneg]. rewrite Hval.
    destruct (pow_negative_base (ultimate_strength / 6.895e6) b)
      as (re & im & Hpow); [ | lra | ].
    + apply Ropp_lt_cancel. rewrite Ropp_0.
      replace (- (ultimate_strength / 6.895e6))
        with ((- ultimate_strength) / 6.895e6) by (unfold Rdiv; ring).
      apply Rdiv_lt_0_compat; lra.
    + rewrite Hpow. reflexivity.
Qed.

Lemma surface_finish_factor_errors_witness :
  calculate_surface_finish_factor "polished" 0
    = Fail (Builtin ZeroDivisionError) /\
  calculate_surface_finish_factor "polished" (-1) = Fail TypeError.
Proof.
  split.
  - apply (proj1 (surface_finish_factor_errors "polished" 0)). reflexivity.
  - apply (proj2 (surface_finish_factor_errors "polished" (-1))). lra.
Defined.

(** X11.  [calculate_size_factor] is positive and at most 1 for every
    diameter and loading type.  It is exactly 1 for a loading other than
    bending or torsion and for diameters up to 7.62 mm (0.3 in), strictly
    below 1 for bending or torsion above 7.62 mm, and constant above
    254 mm (10 in). *)
Theorem size_factor_range (diameter_mm : R) (loading_type : string) :
  0 < calculate_size_factor diameter_mm loading_type <= 1 /\
  (loading_type <> "bending"%string -> loading_type <> "torsion"%string ->
   calculate_size_factor diameter_mm loading_type = 1) /\
  (diameter_mm <= 7.62 ->
   calculate_size_factor diameter_mm loading_type = 1) /\
  (loading_type = "bending"%string \/ loading_type = "torsion"%string ->
   (7.62 < diameter_mm ->
    calculate_size_factor diameter_mm loading_type < 1) /\
   (254 < diameter_mm ->
    calculate_size_factor diameter_mm loading_type
    = 0.91 * Rpower 10 (-0.157))).
Proof.
  unfold calculate_size_factor. cbv zeta.
  assert (H10 : 0 < Rpower 10.0 (-0.157) < 1)
    by (apply Rpower_below_1; lra).
  destruct (String.eqb_spec loading_type "bending") as [Eb | Nb];
    [ | destruct (String.eqb_spec loading_type "torsion") as [Et | Nt] ];
    cbn [orb].
  3: { repeat split; try lra; intros; try lra.
       destruct H as [H | H]; contradiction.
       destruct H as [H | H]; contradiction. }
  all: destruct (Rle_dec (diameter_mm / 25.4) 0.3) as [H1 | H1];
    [ | destruct (Rle_dec (diameter_mm / 25.4) 2.0) as [H2 | H2];
        [ | destruct (Rle_dec (diameter_mm / 25.4) 10.0) as [H3 | H3] ] ].
  all: try (assert (Hp : 0 < Rpower (diameter_mm / 25.4 / 0.3) (-0.107) < 1)
              by (apply Rpower_below_1; lra)).
  all: try (assert (Hq : 0 < Rpower (diameter_mm / 25.4) (-0.157) < 1)
              by (apply Rpower_below_1; lra)).
  all: repeat split; intros; try contradiction; try lra.
  all: try (f_equal; f_equal; lra).
Qed.

Lemma size_factor_range_witness :
  calculate_size_factor 5 "bending" = 1 /\
  calculate_size_factor 40 "axial" = 1 /\
  calculate_size_factor 40 "torsion" < 1 /\
  calculate_size_factor 300 "bending" = 0.91 * Rpower 10 (-0.157).
Proof.
  split; [ | split; [ | split]].
  - apply (proj1 (proj2 (proj2 (size_factor_range 5 "bending")))). lra.
  - apply (proj1 (proj2 (size_factor_range 40 "axial"))); discriminate.
  - apply (proj2 (proj2 (proj2 (size_factor_range 40 "torsion")))).
    + now right.
    + lra.
  - apply (proj2 (proj2 (proj2 (size_factor_range 300 "bending")))).
    + now left.
    + lra.
Defined.

End FatigueFactors.

(** ** Stress concentration *)

Section StressConcentration.

Import Utils.
Local Open Scope R_scope.


Lemma hole_formula_bounds (x : R) :
  x <= 0.5 -> 2.15875 <= hole_formula x /\ (0 <= x -> hole_formula x <= 3).
Proof.
  intros Hx. unfold hole_formula. split.
  - assert (H : 0 <= (0.5 - x) * (1.53 * (x - 0.95) ^ 2 + 0.3)).
    { apply Rmult_le_pos; [lra | ].
      pose proof (pow2_ge_0 (x - 0.95)). lra. }
    nra.
  - intros H0.
    assert (H : 0 <= x * (3.13 - 3.66 * x + 1.53 * x * x)) by nra.
    nra.
Qed.

Lemma hole_formula_at_half : hole_formula 0.5 = 2.15875.
Proof. unfold hole_formula. lra. Qed.



(** X13.  For a shaft with a transverse hole the factor depends only on
    the ratio of hole to shaft diameter (5 and 20 when not given): the
    call raises [ZeroDivisionError] for a zero shaft diameter; for a
    ratio of at least -1e50 (so that its cube stays within the range of
    the floats) it returns a factor of at least 2.15875, and exactly
    2.15875 once the hole is half the shaft diameter or more. *)
Theorem stress_concentration_hole (dimensions : list (string * R)) :
  (get_default dimensions "shaft_diameter" 20 = 0 ->
   calculate_stress_concentration_factor "shaft_with_hole" dimensions
   = Raise ZeroDivisionError) /\
  (get_default dimensions "shaft_diameter" 20 <> 0 ->
   -1e50 <= get_default dimensions "hole_diameter" 5
            / get_default dimensions "shaft_diameter" 20 ->
   exists Kt,
     calculate_stress_concentration_factor "shaft_with_hole" dimensions
     = Ok Kt /\
     2.15875 <= Kt /\
     (0.5 <= get_default dimensions "hole_diameter" 5
             / get_default dimensions "shaft_diameter" 20 ->
      Kt = 2.15875)).
Proof.
  unfold calculate_stress_concentration_factor.
  cbn [String.eqb Ascii.eqb Bool.eqb]. split.
  - intros ->. now rewrite div_zero.
  - intros Hnz _. rewrite div_ok by exact Hnz. cbn [bind].
    eexists. split; [reflexivity | ]. split.
    + apply hole_formula_bounds. apply Rmin_r.
    + intros Hhalf. rewrite Rmin_right by exact Hhalf.
      apply hole_formula_at_half.
Qed.

Lemma stress_concentration_hole_witness :
  calculate_stress_concentration_factor "shaft_with_hole"
    [("shaft_diameter"%string, 0)] = Raise ZeroDivisionError /\
  exists Kt,
    calculate_stress_concentration_factor "shaft_with_hole"
      [("hole_diameter"%string, 30); ("shaft_diameter"%string, 40)]
    = Ok Kt /\
    2.15875 <= Kt /\
    (0.5 <= get_default
              [("hole_diameter"%string, 30); ("shaft_diameter"%string, 40)]
              "hole_diameter" 5
            / get_default
                [("hole_diameter"%string, 30); ("shaft_diameter"%string, 40)]
                "shaft_diameter" 20 ->
     Kt = 2.15875).
Proof.
  split.
  - apply (proj1 (stress_concentration_hole [("shaft_diameter"%string, 0)])).
    reflexivity.
  - apply (proj2 (stress_concentration_hole
                    [("hole_diameter"%string, 30);
                     ("shaft_diameter"%string, 40)]));
      cbn [get_default item dict_get String.eqb Ascii.eqb Bool.eqb]; lra.
Defined.

End StressConcentration.

(** ** The material catalogue *)

Section MaterialCatalogue.

Import Catalogue.
Local Open Scope R_scope.

(** What every record of the catalogue satisfies. *)
Lemma catalogue_sound :
  Forall (fun m =>
            0 < yield_strength m <= ultimate_strength m /\
            0 < fatigue_strength m <= ultimate_strength m /\
            0 < elastic_modulus m /\
            0 < poisson_ratio m < 0.5 /\
            0 < density m /\ 0 < hardness_hb m)
         (map snd MATERIALS_DATABASE).
Proof.
  cbn [map snd MATERIALS_DATABASE].
  repeat (constructor;
          [cbn [yield_strength ultimate_strength fatigue_strength
                elastic_modulus poisson_ratio density hardness_hb]; lra | ]).
  constructor.
Qed.

Lemma catalogue_names_distinct : NoDup (map fst MATERIALS_DATABASE).
Proof.
  apply (NoDup_count_occ' string_dec).
  intros x Hx. cbn [map fst MATERIALS_DATABASE In] in Hx.
  repeat (destruct Hx as [<- | Hx]; [reflexivity | ]). contradiction.
Qed.

Lemma material_from_catalogue (material_name : string) :
  In (get_material_properties material_name) (map snd MATERIALS_DATABASE).
Proof.
  unfold get_material_properties.
  destruct (dict_get material_name MATERIALS_DATABASE) as [props | ] eqn:E.
  - now apply dict_get_in_values with material_name.
  - rewrite fallback_material_present.
    apply dict_get_in_values with "AISI 1045 Steel"%string.
    exact fallback_material_present.
Qed.

(** X14.  Whatever name it is given, [get_material_properties] returns a
    record of the catalogue, so one with a positive yield strength not
    above the ultimate strength, a positive elastic modulus and a Poisson
    ratio strictly between 0 and 0.5; a name that is not catalogued gets
    the record of AISI 1045 steel. *)
Theorem material_lookup_sound (material_name : string) :
  (0 < yield_strength (get_material_properties material_name)
     <= ultimate_strength (get_material_properties material_name) /\
   0 < elastic_modulus (get_material_properties material_name) /\
   0 < poisson_ratio (get_material_properties material_name) < 0.5) /\
  (~ In material_name get_all_materials ->
   get_material_properties material_name =
   get_material_properties "AISI 1045 Steel").
Proof.
  split.
  - pose proof catalogue_sound as Hall. rewrite Forall_forall in Hall.
    destruct (Hall _ (material_from_catalogue material_name))
      as (Hy & _ & HE & Hnu & _).
    repeat split; lra.
  - intros Hunknown. unfold get_material_properties at 1.
    rewrite (dict_get_unknown _ _ Hunknown).
    rewrite fallback_material_present. reflexivity.
Qed.

Lemma material_lookup_sound_witness :
  get_material_properties "Unobtainium" =
  get_material_properties "AISI 1045 Steel".
Proof.
  apply (proj2 (material_lookup_sound "Unobtainium")).
  cbn [get_all_materials map fst MATERIALS_DATABASE In]. intros H.
  repeat (destruct H as [H | H]; [discriminate H | ]). exact H.
Defined.

(** X15.  [get_materials_by_category] lists exactly the catalogued names
    whose record, as [get_material_properties] returns it, has the given
    category. *)
Theorem materials_by_category_spec (category name : string) :
  In name (get_materials_by_category category) <->
  In name get_all_materials /\
  Materials.category (get_material_properties name) = category.
Proof.
  unfold get_materials_by_category, get_all_materials.
  rewrite in_map_iff. split.
  - intros ([n props] & Hn & Hin). cbn [fst] in Hn. subst n.
    apply filter_In in Hin. destruct Hin as [Hin Hcat]. cbn [snd] in Hcat.
    split.
    + apply in_map_iff. now exists (name, props).
    + unfold get_material_properties.
      rewrite (dict_get_entry _ _ _ catalogue_names_distinct Hin).
      now apply String.eqb_eq.
  - intros [Hin Hcat].
    destruct (dict_get_known _ _ Hin) as [props Hprops].
    exists (name, props). split; [reflexivity | ].
    apply filter_In. split; [now apply dict_get_is_entry | ].
    cbn [snd]. apply String.eqb_eq.
    unfold get_material_properties in Hcat. now rewrite Hprops in Hcat.
Qed.

End MaterialCatalogue.

Lemma materials_by_category_spec_witness :
  In "Brass C36000"%string
     (Catalogue.get_materials_by_category "Copper Alloy").
Proof.
  apply (proj2 (materials_by_category_spec "Copper Alloy" "Brass C36000")).
  split; [ | reflexivity].
  cbn [get_all_materials map fst MATERIALS_DATABASE In]. tauto.
Defined.

(** ** The shaft pages *)

Section ShaftAnalysis.

Import ShaftPages.
Local Open Scope R_scope.

Lemma radicand_nonneg (a b : R) : 0 <= a ^ 2 + 3 * b ^ 2.
Proof. pose proof (pow2_ge_0 a). pose proof (pow2_ge_0 b). lra. Qed.

(** The stress page repeats the computation of [verify_shaft_diameter]
    on the stored record. *)
Lemma stress_analysis_spec (p : shaft_params) :
  exists r,
    stress_analysis p = Ok r /\
    Shaft.equivalent_stress (outer_diameter p) (inner_diameter p) (torque p)
      (bending_moment p) (axial_force p) = Ok (equivalent_stress r) /\
    Shaft.verify_shaft_diameter (outer_diameter p) (inner_diameter p)
      (torque p) (bending_moment p) (axial_force p) (material_props p)
    = Ok (safety_factor r) /\
    meets_requirements r
    = ge_float (safety_factor r) (target_safety_factor p) /\
    equivalent_stress r =
    R_sqrt.sqrt ((axial_stress r + bending_stress r) ^ 2
                 + 3 * shear_stress r ^ 2).
Proof.
  unfold stress_analysis, Shaft.verify_shaft_diameter, Shaft.equivalent_stress.
  destruct (Shaft.section_properties (outer_diameter p / 1000)
              (inner_diameter p / 1000)) as [[area I_] J].
  rewrite !guarded_div_ok. cbn [bind].
  rewrite sqrt_ok by apply radicand_nonneg. cbn [bind].
  match goal with |- context [Rlt_dec 0 (R_sqrt.sqrt ?x)] =>
    pose proof (sqrt_pos x) as Hpos;
    destruct (Rlt_dec 0 (R_sqrt.sqrt x)) as [L | N] end.
  - rewrite div_ok by lra. cbn [bind]. eexists. split; [reflexivity | ].
    cbn. repeat split; reflexivity.
  - cbn [bind]. eexists. split; [reflexivity | ].
    cbn. repeat split; reflexivity.
Qed.



End ShaftAnalysis.

(** ** Degenerate and solid sections *)

Section SectionShapes.

Import ShaftPages.
Local Open Scope R_scope.

Lemma degenerate_equivalent_stress (outer inner torque moment force : R) :
  0 <= outer <= inner ->
  Shaft.equivalent_stress outer inner torque moment force = Ok 0.
Proof.
  intros [Ho Hoi]. pose proof PI_RGT_0 as HPI.
  assert (H2 : (outer / 1000 / 2) ^ 2 <= (inner / 1000 / 2) ^ 2)
    by (apply pow_incr; lra).
  assert (H4 : (outer / 1000) ^ 4 <= (inner / 1000) ^ 4)
    by (apply pow_incr; lra).
  unfold Shaft.equivalent_stress, Shaft.section_properties. cbv zeta.
  destruct (Req_dec_T (inner / 1000) 0) as [E | N].
  - assert (Eo : outer / 1000 = 0) by lra. rewrite Eo.
    destruct (Rlt_dec 0 (PI * (0 / 2) ^ 2)) as [L | _]; [nra | ].
    destruct (Rlt_dec 0 (PI * 0 ^ 4 / 64)) as [L | _]; [nra | ].
    destruct (Rlt_dec 0 (PI * 0 ^ 4 / 32)) as [L | _]; [nra | ].
    cbn [bind]. rewrite sqrt_ok by apply radicand_nonneg.
    f_equal. transitivity (R_sqrt.sqrt 0); [f_equal; ring | apply sqrt_0].
  - destruct (Rlt_dec 0 _) as [L | _]; [nra | ].
    destruct (Rlt_dec 0 _) as [L | _]; [nra | ].
    destruct (Rlt_dec 0 _) as [L | _]; [nra | ].
    cbn [bind]. rewrite sqrt_ok by apply radicand_nonneg.
    f_equal. transitivity (R_sqrt.sqrt 0); [f_equal; ring | apply sqrt_0].
Qed.

(** X18.  A section whose bore is as wide as the outer diameter or wider
    (both at most 1e6, so that their fourth powers are floats) has no
    material, and the code reports it as unboundedly safe and perfectly
    rigid: [verify_shaft_diameter] and the stress page give an infinite
    safety factor that meets any target, and for a length between 1e-3
    and 1e9, a Poisson ratio between -0.5 and 10 and a bending moment of
    magnitude at most 1e15 the deflection page gives zero deflection and
    twist, within its limit. *)
Theorem degenerate_section_reported_safe (p : shaft_params) :
  0 <= outer_diameter p <= inner_diameter p -> inner_diameter p <= 1e6 ->
  Shaft.verify_shaft_diameter (outer_diameter p) (inner_diameter p)
    (torque p) (bending_moment p) (axial_force p) (material_props p)
  = Ok PosInf /\
  (exists r,
     stress_analysis p = Ok r /\ equivalent_stress r = 0 /\
     safety_factor r = PosInf /\ meets_requirements r = true) /\
  (1e-3 <= shaft_length p <= 1e9 ->
   -0.5 <= poisson_ratio (material_props p) <= 10 ->
   -1e15 <= bending_moment p <= 1e15 ->
   exists d,
     deflection_analysis p = Ok d /\ bending_deflection d = 0 /\
     torsional_angle d = 0 /\ within_limit d = true).
Proof.
  intros Hdeg _.
  pose proof (degenerate_equivalent_stress _ _ (torque p) (bending_moment p)
                (axial_force p) Hdeg) as Hsig.
  pose proof (verify_zero_stress _ _ _ _ _ (material_props p) Hsig) as Hver.
  split; [exact Hver | ]. split.
  - destruct (stress_analysis_spec p) as (r & Hr & Hs & Hv & Hm & _).
    exists r. rewrite Hsig in Hs. apply Ok_inj in Hs.
    rewrite Hver in Hv. apply Ok_inj in Hv.
    split; [exact Hr | ]. split; [now symmetry | ]. split; [now symmetry | ].
    rewrite Hm, <- Hv. reflexivity.
  - intros HLb Hnub _.
    assert (HL : 0 < shaft_length p) by lra.
    assert (Hnu : poisson_ratio (material_props p) <> -1) by lra.
    destruct Hdeg as [Ho Hoi]. pose proof PI_RGT_0 as HPI.
    assert (H4 : (outer_diameter p / 1000) ^ 4
                 <= (inner_diameter p / 1000) ^ 4)
      by (apply pow_incr; lra).
    unfold deflection_analysis. cbv zeta.
    rewrite div_ok by lra. cbn [bind].
    destruct (Req_dec_T (inner_diameter p / 1000) 0) as [E | N].
    + assert (Eo : outer_diameter p / 1000 = 0) by lra. rewrite Eo.
      rewrite div_ok by lra. cbn [bind].
      destruct (Rlt_dec 0 (PI * 0 ^ 4 / 64)) as [L | _]; [nra | ].
      destruct (Rlt_dec 0 (PI * 0 ^ 4 / 32)) as [L | _]; [nra | ].
      cbn [bind]. eexists. split; [reflexivity | ]. cbn.
      repeat split.
      destruct (Rle_dec 0 (shaft_length p / 1000 / 250)) as [_ | N];
        [reflexivity | lra].
    + rewrite div_ok by lra. cbn [bind].
      destruct (Rlt_dec 0 _) as [L | _]; [nra | ].
      destruct (Rlt_dec 0 _) as [L | _]; [nra | ].
      cbn [bind]. eexists. split; [reflexivity | ]. cbn.
      repeat split.
      destruct (Rle_dec 0 (shaft_length p / 1000 / 250)) as [_ | N'];
        [reflexivity | lra].
Qed.

Lemma degenerate_section_reported_safe_witness :
  Shaft.verify_shaft_diameter 50 60 1000 500 100
    (get_material_properties "AISI 1045 Steel") = Ok PosInf.
Proof.
  apply (degenerate_section_reported_safe
           (mk_shaft_params 1000 500 100 1000 50 60
              (get_material_properties "AISI 1045 Steel") 2)); cbn; lra.
Defined.

Lemma solid_equivalent_stress_closed (c torque moment : R) :
  0 < c ->
  Shaft.equivalent_stress (c * 1000) 0 torque moment 0 =
  Ok (16 / (PI * c ^ 3) * R_sqrt.sqrt (4 * moment ^ 2 + 3 * torque ^ 2)).
Proof.
  intros Hc. pose proof PI_RGT_0 as HPI.
  rewrite equivalent_stress_solid by exact Hc. f_equal.
  assert (Hc3 : 0 < c ^ 3) by (apply pow_lt; exact Hc).
  assert (Hk : 0 < 16 / (PI * c ^ 3)).
  { apply Rdiv_lt_0_compat; [lra | ]. apply Rmult_lt_0_compat; assumption. }
  replace ((0 / (PI * (c / 2) ^ 2) + moment * (c / 2) / (PI * c ^ 4 / 64)) ^ 2
           + 3 * (torque * (c / 2) / (PI * c ^ 4 / 32)) ^ 2)
    with ((16 / (PI * c ^ 3)) ^ 2 * (4 * moment ^ 2 + 3 * torque ^ 2))
    by (field; lra).
  rewrite sqrt_mult.
  - rewrite sqrt_pow2 by lra. reflexivity.
  - apply pow2_ge_0.
  - pose proof (pow2_ge_0 moment). pose proof (pow2_ge_0 torque). lra.
Qed.

(** X19.  For a solid shaft without axial force, with a diameter
    between 1e-3 and 1e6, a yield strength between 1 and 1e15 and loads
    of magnitude at most 1e15 that are not negligible
    ([moment ^ 2 + torque ^ 2] at least 1e-6), the safety factor that
    [verify_shaft_diameter] returns is
    [yield * pi * d^3 / (16 * sqrt (4 M^2 + 3 T^2))] with [d] in metres,
    so scaling the diameter by [k], within the same range of diameters,
    scales the safety factor by [k^3]. *)
Theorem solid_safety_factor_cubic
    (diameter torque moment : R) (m : material) :
  1e-3 <= diameter <= 1e6 -> 1 <= yield_strength m <= 1e15 ->
  -1e15 <= torque <= 1e15 -> -1e15 <= moment <= 1e15 ->
  1e-6 <= moment ^ 2 + torque ^ 2 ->
  exists s,
    0 < s /\
    s = yield_strength m * PI * (diameter / 1000) ^ 3
        / (16 * R_sqrt.sqrt (4 * moment ^ 2 + 3 * torque ^ 2)) /\
    forall k, 0 < k -> 1e-3 <= k * diameter <= 1e6 ->
      Shaft.verify_shaft_diameter (k * diameter) 0 torque moment 0 m
      = Ok (Fin (k ^ 3 * s)).
Proof.
  intros [Hd _] [Hy _] _ _ Hloaded. pose proof PI_RGT_0 as HPI.
  assert (Hload : moment <> 0 \/ torque <> 0).
  { destruct (Req_dec_T moment 0) as [Em | Nm]; [right | now left].
    intros Et. rewrite Em, Et in Hloaded. lra. }
  assert (HS : 0 < R_sqrt.sqrt (4 * moment ^ 2 + 3 * torque ^ 2)).
  { apply sqrt_lt_R0.
    pose proof (pow2_ge_0 moment). pose proof (pow2_ge_0 torque).
    destruct Hload as [Hne | Hne]; pose proof (pow_nonzero _ 2 Hne); lra. }
  assert (Hd3 : 0 < (diameter / 1000) ^ 3) by (apply pow_lt; lra).
  eexists. split; [ | split; [reflexivity | ]].
  - apply Rdiv_lt_0_compat; [ | lra].
    apply Rmult_lt_0_compat; [ | exact Hd3].
    apply Rmult_lt_0_compat; [lra | exact HPI].
  - intros k Hk _.
    assert (Hkd : 0 < k * diameter / 1000)
      by (apply Rdiv_lt_0_compat; [apply Rmult_lt_0_compat | ]; lra).
    assert (Hkd3 : 0 < (k * diameter / 1000) ^ 3) by (apply pow_lt; lra).
    unfold Shaft.verify_shaft_diameter.
    replace (k * diameter) with (k * diameter / 1000 * 1000) by field.
    rewrite solid_equivalent_stress_closed by exact Hkd. cbn [bind].
    assert (Hsig : 0 < 16 / (PI * (k * diameter / 1000) ^ 3)
                       * R_sqrt.sqrt (4 * moment ^ 2 + 3 * torque ^ 2)).
    { apply Rmult_lt_0_compat; [ | exact HS].
      apply Rdiv_lt_0_compat; [lra | ]. apply Rmult_lt_0_compat; assumption. }
    destruct (Rlt_dec 0 _) as [_ | N]; [ | contradiction].
    rewrite div_ok by lra. cbn [bind]. do 2 f_equal.
    field. repeat split; lra.
Qed.

Lemma solid_safety_factor_cubic_witness :
  exists s,
    0 < s /\
    s = yield_strength (get_material_properties "AISI 1045 Steel") * PI
        * (50 / 1000) ^ 3
        / (16 * R_sqrt.sqrt (4 * 500 ^ 2 + 3 * 1000 ^ 2)) /\
    forall k, 0 < k -> 1e-3 <= k * 50 <= 1e6 ->
      Shaft.verify_shaft_diameter (k * 50) 0 1000 500 0
        (get_material_properties "AISI 1045 Steel")
      = Ok (Fin (k ^ 3 * s)).
Proof.
  apply (solid_safety_factor_cubic 50 1000 500
           (get_material_properties "AISI 1045 Steel"));
    rewrite ?steel_1045_yield; lra.
Defined.

(** X20.  In design mode with a solid section, no axial force, a torque
    between 1e-6 and 1e15, a bending moment from 0 to 100 times the
    torque, a yield strength between 1 and 1e15 and a target safety
    factor between 1e-3 and 1e6, the stress page marks the diameter that
    the design page has just computed as not meeting the target safety
    factor. *)
Theorem designed_solid_shaft_fails_stress_page
    (torque moment length : R) (m : material) (sf : R) :
  1e-6 <= torque <= 1e15 -> 0 <= moment <= 100 * torque ->
  1 <= yield_strength m <= 1e15 -> 1e-3 <= sf <= 1e6 ->
  exists d r s,
    Shaft.calculate_required_diameter torque moment 0 m sf 0
    = Ok (PyFloat d) /\
    stress_analysis (mk_shaft_params torque moment 0 length d 0 m sf)
    = Ok r /\
    safety_factor r = Fin s /\ s < sf /\
    meets_requirements r = false.
Proof.
  intros [Ht' _] [Hm _] [Hy' _] [Hsf' _].
  assert (Ht : 0 < torque) by lra.
  assert (Hy : 0 < yield_strength m) by lra.
  assert (Hsf : 0 < sf) by lra.
  destruct (solid_round_trip_value torque moment m sf Hy Hsf)
    as (d & Hcalc & Hver); [right; lra | ].
  destruct (stress_analysis_spec
              (mk_shaft_params torque moment 0 length d 0 m sf))
    as (r & Hr & _ & Hv & Hmeets & _).
  cbn [outer_diameter inner_diameter ShaftPages.torque bending_moment
       axial_force material_props target_safety_factor] in Hv, Hmeets.
  rewrite Hver in Hv. apply Ok_inj in Hv.
  exists d, r. eexists. split; [exact Hcalc | ]. split; [exact Hr | ].
  split; [symmetry; exact Hv | ].
  assert (Ht2 : 0 < torque ^ 2) by (apply pow_lt; assumption).
  pose proof (pow2_ge_0 moment) as Hm2.
  assert (Hlt : R_sqrt.sqrt (moment ^ 2 + (0.75 * torque) ^ 2)
                < R_sqrt.sqrt (moment ^ 2 + 0.75 * torque ^ 2)).
  { apply sqrt_lt_1; [apply moment_radicand_nonneg | lra | ].
    replace ((0.75 * torque) ^ 2) with (0.5625 * torque ^ 2) by lra. lra. }
  assert (Hpos : 0 < R_sqrt.sqrt (moment ^ 2 + 0.75 * torque ^ 2))
    by (apply sqrt_lt_R0; lra).
  assert (Hshort : sf * R_sqrt.sqrt (moment ^ 2 + (0.75 * torque) ^ 2)
                   / R_sqrt.sqrt (moment ^ 2 + 0.75 * torque ^ 2) < sf).
  { apply quotient_below; [exact Hpos | ].
    apply Rmult_lt_compat_l; assumption. }
  split; [exact Hshort | ].
  rewrite Hmeets, <- Hv. cbn [ge_float].
  destruct (Rle_dec sf _) as [L | _]; [lra | reflexivity].
Qed.

Lemma designed_solid_shaft_fails_stress_page_witness :
  exists d r s,
    Shaft.calculate_required_diameter 1000 500 0
      (get_material_properties "AISI 1045 Steel") 2 0 = Ok (PyFloat d) /\
    stress_analysis
      (mk_shaft_params 1000 500 0 1000 d 0
         (get_material_properties "AISI 1045 Steel") 2) = Ok r /\
    safety_factor r = Fin s /\ s < 2 /\
    meets_requirements r = false.
Proof.
  apply (designed_solid_shaft_fails_stress_page 1000 500 1000
           (get_material_properties "AISI 1045 Steel") 2);
    rewrite ?steel_1045_yield; lra.
Defined.

End SectionShapes.

(** ** Deflection *)

Section Deflection.

Import ShaftPages.
Local Open Scope R_scope.

(** The second moment of area of the section, in metres to the fourth. *)
Lemma second_moment_positive (outer inner : R) :
  0 <= inner < outer ->
  0 < PI * ((outer / 1000) ^ 4 - (inner / 1000) ^ 4) / 64.
Proof.
  intros [Hi Hio]. pose proof PI_RGT_0 as HPI.
  assert (H : 0 < (outer / 1000) ^ 4 - (inner / 1000) ^ 4).
  { replace ((outer / 1000) ^ 4 - (inner / 1000) ^ 4)
      with ((outer / 1000 - inner / 1000) * (outer / 1000 + inner / 1000)
            * (outer / 1000 * (outer / 1000)
               + inner / 1000 * (inner / 1000))) by ring.
    apply Rmult_lt_0_compat; [apply Rmult_lt_0_compat; lra | nra]. }
  apply Rdiv_lt_0_compat; [ | lra]. apply Rmult_lt_0_compat; assumption.
Qed.

Lemma deflection_analysis_value (p : shaft_params) :
  0 <= inner_diameter p < outer_diameter p ->
  0 < shaft_length p ->
  0 < elastic_modulus (material_props p) ->
  -1 < poisson_ratio (material_props p) ->
  exists r,
    deflection_analysis p = Ok r /\
    bending_deflection r =
      bending_moment p * (shaft_length p / 1000) ^ 2
      / (12 * elastic_modulus (material_props p)
         * (PI * ((outer_diameter p / 1000) ^ 4
                  - (inner_diameter p / 1000) ^ 4) / 64)) /\
    torsional_angle r =
      (1 + poisson_ratio (material_props p)) * torque p
      * (shaft_length p / 1000)
      / (elastic_modulus (material_props p)
         * (PI * ((outer_diameter p / 1000) ^ 4
                  - (inner_diameter p / 1000) ^ 4) / 64)) /\
    torsional_deflection r
    = torsional_angle r * (outer_diameter p / 1000 / 2) /\
    bending_limit r = shaft_length p / 1000 / 250 /\
    (within_limit r = true <-> bending_deflection r <= bending_limit r).
Proof.
  intros Hgeo HL HE Hnu. pose proof PI_RGT_0 as HPI.
  pose proof (second_moment_positive _ _ Hgeo) as HI.
  assert (Ho : 0 < outer_diameter p / 1000) by lra.
  assert (Hi : 0 <= inner_diameter p / 1000) by lra.
  assert (Hio : inner_diameter p / 1000 < outer_diameter p / 1000) by lra.
  set (o := outer_diameter p / 1000) in *.
  set (i := inner_diameter p / 1000) in *.
  set (E := elastic_modulus (material_props p)) in *.
  set (nu := poisson_ratio (material_props p)) in *.
  set (L := shaft_length p / 1000).
  assert (HLpos : 0 < L) by (unfold L; lra).
  unfold deflection_analysis. cbv zeta.
  fold o i E nu L.
  rewrite div_ok by lra. cbn [bind].
  assert (Hwithin : forall x y : R,
            (if Rle_dec x y then true else false) = true <-> x <= y).
  { intros x y. destruct (Rle_dec x y); split; intros; try assumption;
      try reflexivity; try discriminate; contradiction. }
  destruct (Req_dec_T i 0) as [Ei | Ni].
  - assert (HIs : 0 < PI * o ^ 4 / 64).
    { replace (PI * o ^ 4 / 64) with (PI * (o ^ 4 - i ^ 4) / 64)
        by (rewrite Ei; field). exact HI. }
    rewrite div_ok by lra. cbn [bind].
    destruct (Rlt_dec 0 (PI * o ^ 4 / 64)) as [_ | N]; [ | contradiction].
    rewrite div_ok by nra. cbn [bind].
    destruct (Rlt_dec 0 (PI * o ^ 4 / 32)) as [_ | N]; [ | lra].
    rewrite div_ok by (apply Rgt_not_eq; apply Rmult_lt_0_compat;
                       [apply Rdiv_lt_0_compat | ]; lra).
    cbn [bind]. eexists. split; [reflexivity | ].
    cbn [bending_deflection torsional_angle torsional_deflection
         bending_limit within_limit].
    split; [rewrite Ei; field; repeat split; lra | ].
    split; [rewrite Ei; field; repeat split; lra | ].
    split; [reflexivity | ]. split; [reflexivity | apply Hwithin].
  - rewrite div_ok by lra. cbn [bind].
    destruct (Rlt_dec 0 (PI * (o ^ 4 - i ^ 4) / 64)) as [_ | N];
      [ | contradiction].
    rewrite div_ok by nra. cbn [bind].
    destruct (Rlt_dec 0 (PI * (o ^ 4 - i ^ 4) / 32)) as [_ | N]; [ | lra].
    rewrite div_ok by (apply Rgt_not_eq; apply Rmult_lt_0_compat;
                       [apply Rdiv_lt_0_compat | ]; lra).
    cbn [bind]. eexists. split; [reflexivity | ].
    cbn [bending_deflection torsional_angle torsional_deflection
         bending_limit within_limit].
    assert (Hdiff : o ^ 4 - i ^ 4 <> 0)
      by (intros Hx; rewrite Hx in HI; lra).
    split; [field; repeat split; lra | ].
    split; [field; repeat split; lra | ].
    split; [reflexivity | ]. split; [reflexivity | apply Hwithin].
Qed.

(** X21.  For a proper section in the working range of the arithmetic
    (an outer diameter between 1e-3 and 1e6, a bore of at most 0.999 of
    it), a length between 1e-3 and 1e9, an elastic modulus between 1 and
    1e15, a Poisson ratio between -0.5 and 10 and loads of magnitude at
    most 1e15, the deflection page returns a bending deflection of
    [M L^2 / (12 E I)] and an angle of twist of [(1 + nu) T L / (E I)],
    with [I = pi (D^4 - d^4) / 64] in SI units, and reports the
    deflection as within its limit exactly when it is at most [L / 250]. *)
Theorem deflection_closed_form (p : shaft_params) :
  1e-3 <= outer_diameter p <= 1e6 ->
  0 <= inner_diameter p <= 0.999 * outer_diameter p ->
  1e-3 <= shaft_length p <= 1e9 ->
  1 <= elastic_modulus (material_props p) <= 1e15 ->
  -0.5 <= poisson_ratio (material_props p) <= 10 ->
  -1e15 <= torque p <= 1e15 -> -1e15 <= bending_moment p <= 1e15 ->
  exists r,
    deflection_analysis p = Ok r /\
    bending_deflection r =
      bending_moment p * (shaft_length p / 1000) ^ 2
      / (12 * elastic_modulus (material_props p)
         * (PI * ((outer_diameter p / 1000) ^ 4
                  - (inner_diameter p / 1000) ^ 4) / 64)) /\
    torsional_angle r =
      (1 + poisson_ratio (material_props p)) * torque p
      * (shaft_length p / 1000)
      / (elastic_modulus (material_props p)
         * (PI * ((outer_diameter p / 1000) ^ 4
                  - (inner_diameter p / 1000) ^ 4) / 64)) /\
    (within_limit r = true <->
     bending_deflection r <= shaft_length p / 1000 / 250).
Proof.
  intros Ho Hi HL HE Hnu _ _.
  destruct (deflection_analysis_value p)
    as (r & Hr & Hb & Ht & _ & Hlim & Hw); try lra.
  exists r. rewrite <- Hlim. repeat split; try assumption; apply Hw.
Qed.

Lemma deflection_closed_form_witness :
  exists r,
    deflection_analysis
      (mk_shaft_params 1000 500 0 1000 50 20
         (get_material_properties "AISI 1045 Steel") 2) = Ok r /\
    bending_deflection r =
      500 * (1000 / 1000) ^ 2
      / (12 * 200e9 * (PI * ((50 / 1000) ^ 4 - (20 / 1000) ^ 4) / 64)) /\
    torsional_angle r =
      (1 + 0.29) * 1000 * (1000 / 1000)
      / (200e9 * (PI * ((50 / 1000) ^ 4 - (20 / 1000) ^ 4) / 64)) /\
    (within_limit r = true <->
     bending_deflection r <= 1000 / 1000 / 250).
Proof.
  apply (deflection_closed_form
           (mk_shaft_params 1000 500 0 1000 50 20
              (get_material_properties "AISI 1045 Steel") 2)); cbn; lra.
Defined.

(** X22.  Boring out a shaft never makes it stiffer: with the same outer
    diameter (between 1e-3 and 1e6), length (between 1e-3 and 1e9),
    material (elastic modulus between 1 and 1e15, Poisson ratio between
    -0.5 and 10) and loads (from 0 to 1e15), the deflection page gives
    the hollow shaft, with a bore of at most 0.999 of the outer diameter,
    at least the bending deflection and the angle of twist of the solid
    one. *)
Theorem hollow_shaft_deflects_more
    (torque moment force length outer inner : R) (m : material) (sf : R) :
  0 <= torque <= 1e15 -> 0 <= moment <= 1e15 ->
  1e-3 <= outer <= 1e6 -> 0 < inner <= 0.999 * outer ->
  1e-3 <= length <= 1e9 ->
  1 <= elastic_modulus m <= 1e15 -> -0.5 <= poisson_ratio m <= 10 ->
  exists solid hollow,
    deflection_analysis
      (mk_shaft_params torque moment force length outer 0 m sf) = Ok solid /\
    deflection_analysis
      (mk_shaft_params torque moment force length outer inner m sf)
    = Ok hollow /\
    bending_deflection solid <= bending_deflection hollow /\
    torsional_angle solid <= torsional_angle hollow.
Proof.
  intros [HT _] [HM _] [Ho _] Hi [HL' _] [HE' _] [Hnu' _].
  assert (Hgeo : 0 < inner < outer) by lra.
  assert (HL : 0 < length) by lra.
  assert (HE : 0 < elastic_modulus m) by lra.
  assert (Hnu : -1 < poisson_ratio m) by lra.
  pose proof PI_RGT_0 as HPI.
  destruct (deflection_analysis_value
              (mk_shaft_params torque moment force length outer 0 m sf))
    as (solid & Hs & Hbs & Hts & _); cbn; try lra.
  destruct (deflection_analysis_value
              (mk_shaft_params torque moment force length outer inner m sf))
    as (hollow & Hh & Hbh & Hth & _); cbn; try lra.
  cbn [outer_diameter inner_diameter shaft_length bending_moment
       ShaftPages.torque material_props] in Hbs, Hts, Hbh, Hth.
  exists solid, hollow. split; [exact Hs | ]. split; [exact Hh | ].
  pose proof (second_moment_positive outer 0 ltac:(lra)) as HIs.
  pose proof (second_moment_positive outer inner ltac:(lra)) as HIh.
  assert (Hle : PI * ((outer / 1000) ^ 4 - (inner / 1000) ^ 4) / 64
                <= PI * ((outer / 1000) ^ 4 - (0 / 1000) ^ 4) / 64).
  { assert (0 <= (inner / 1000) ^ 4) by (apply pow_le; lra).
    replace ((0 / 1000) ^ 4) with 0 by field. nra. }
  set (Is := PI * ((outer / 1000) ^ 4 - (0 / 1000) ^ 4) / 64) in *.
  set (Ih := PI * ((outer / 1000) ^ 4 - (inner / 1000) ^ 4) / 64) in *.
  assert (Hinv : / Is <= / Ih) by (apply Rinv_le_contravar; assumption).
  assert (HL2 : 0 <= (length / 1000) ^ 2) by apply pow2_ge_0.
  rewrite Hbs, Hbh, Hts, Hth. split.
  - replace (moment * (length / 1000) ^ 2 / (12 * elastic_modulus m * Is))
      with (moment * (length / 1000) ^ 2 / (12 * elastic_modulus m) * / Is)
      by (field; lra).
    replace (moment * (length / 1000) ^ 2 / (12 * elastic_modulus m * Ih))
      with (moment * (length / 1000) ^ 2 / (12 * elastic_modulus m) * / Ih)
      by (field; lra).
    apply Rmult_le_compat_l; [ | exact Hinv].
    apply Rmult_le_pos; [apply Rmult_le_pos; assumption | ].
    left. apply Rinv_0_lt_compat. lra.
  - replace ((1 + poisson_ratio m) * torque * (length / 1000)
             / (elastic_modulus m * Is))
      with ((1 + poisson_ratio m) * torque * (length / 1000)
            / elastic_modulus m * / Is) by (field; lra).
    replace ((1 + poisson_ratio m) * torque * (length / 1000)
             / (elastic_modulus m * Ih))
      with ((1 + poisson_ratio m) * torque * (length / 1000)
            / elastic_modulus m * / Ih) by (field; lra).
    apply Rmult_le_compat_l; [ | exact Hinv].
    apply Rmult_le_pos; [ | left; apply Rinv_0_lt_compat; lra].
    apply Rmult_le_pos; [apply Rmult_le_pos; lra | lra].
Qed.

Lemma hollow_shaft_deflects_more_witness :
  exists solid hollow,
    deflection_analysis
      (mk_shaft_params 1000 500 0 1000 50 0
         (get_material_properties "AISI 1045 Steel") 2) = Ok solid /\
    deflection_analysis
      (mk_shaft_params 1000 500 0 1000 50 20
         (get_material_properties "AISI 1045 Steel") 2) = Ok hollow /\
    bending_deflection solid <= bending_deflection hollow /\
    torsional_angle solid <= torsional_angle hollow.
Proof.
  apply (hollow_shaft_deflects_more 1000 500 0 1000 50 20
           (get_material_properties "AISI 1045 Steel") 2); cbn; lra.
Defined.

End Deflection.

(** ** The Lewis factor on every tooth count *)

Section LewisEverywhere.

Import Gear.
Local Open Scope Z_scope.

Lemma lewis_bounded (t : Z) :
  exists y, get_lewis_factor t = Ok (Some y) /\ (0.245 <= y <= 0.472)%Q.
Proof.
  destruct (Z_lt_le_dec t 12) as [Hlo | Hlo].
  { exists 0.245%Q. split; [now apply lewis_below | ].
    split; [apply Qle_refl | discriminate]. }
  destruct (Z_lt_le_dec 300 t) as [Hhi | Hhi].
  { exists 0.472%Q. split; [now apply lewis_above | ].
    split; [discriminate | apply Qle_refl]. }
  destruct (lewis_monotone_by_distance (Z.to_nat (t - 12)) 12)
    as (a & y & Ha & Hy & Hay); [lia | lia | ].
  replace (12 + Z.of_nat (Z.to_nat (t - 12))) with t in Hy by lia.
  destruct (lewis_monotone_by_distance (Z.to_nat (300 - t)) t)
    as (y' & b & Hy' & Hb & Hyb); [lia | lia | ].
  replace (t + Z.of_nat (Z.to_nat (300 - t))) with 300 in Hb by lia.
  rewrite Hy in Hy'. apply Ok_inj in Hy'. injection Hy' as <-.
  assert (Ea : a = 0.245%Q).
  { assert (H : get_lewis_factor 12 = Ok (Some 0.245%Q)) by reflexivity.
    rewrite Ha in H. apply Ok_inj in H. now injection H. }
  assert (Eb : b = 0.472%Q).
  { assert (H : get_lewis_factor 300 = Ok (Some 0.472%Q)) by reflexivity.
    rewrite Hb in H. apply Ok_inj in H. now injection H. }
  subst a b. exists y. repeat split; assumption.
Qed.

Lemma lewis_monotone_everywhere (t1 t2 : Z) :
  t1 <= t2 ->
  exists y1 y2,
    get_lewis_factor t1 = Ok (Some y1) /\
    get_lewis_factor t2 = Ok (Some y2) /\ (y1 <= y2)%Q.
Proof.
  intros Hle.
  destruct (lewis_bounded t1) as (y1 & H1 & Hlo1 & Hhi1).
  destruct (lewis_bounded t2) as (y2 & H2 & Hlo2 & Hhi2).
  destruct (Z_lt_le_dec t1 12) as [Ha | Ha].
  { exists y1, y2. repeat split; try assumption.
    rewrite (lewis_below t1 Ha) in H1. apply Ok_inj in H1.
    injection H1 as <-. exact Hlo2. }
  destruct (Z_lt_le_dec 300 t2) as [Hb | Hb].
  { exists y1, y2. repeat split; try assumption.
    rewrite (lewis_above t2 Hb) in H2. apply Ok_inj in H2.
    injection H2 as <-. exact Hhi1. }
  destruct (lewis_monotone_by_distance (Z.to_nat (t2 - t1)) t1)
    as (a & b & Ha' & Hb' & Hab); [lia | lia | ].
  replace (t1 + Z.of_nat (Z.to_nat (t2 - t1))) with t2 in Hb' by lia.
  exists a, b. repeat split; assumption.
Qed.

(** X23.  [get_lewis_factor] returns a factor for every integer tooth
    count, never [None] and never an error; the factor lies between 0.245
    and 0.472, and a larger tooth count never has a smaller factor. *)
Theorem lewis_factor_everywhere :
  (forall t, exists y,
     get_lewis_factor t = Ok (Some y) /\ (0.245 <= y <= 0.472)%Q) /\
  (forall t1 t2, t1 <= t2 ->
     exists y1 y2,
       get_lewis_factor t1 = Ok (Some y1) /\
       get_lewis_factor t2 = Ok (Some y2) /\ (y1 <= y2)%Q).
Proof.
  split; [exact lewis_bounded | exact lewis_monotone_everywhere].
Qed.

Lemma lewis_factor_everywhere_witness :
  exists y1 y2,
    get_lewis_factor 7 = Ok (Some y1) /\
    get_lewis_factor 1000 = Ok (Some y2) /\ (y1 <= y2)%Q.
Proof.
  apply (proj2 lewis_factor_everywhere 7 1000). lia.
Defined.

End LewisEverywhere.

(** ** The gear pages *)



Section GearDesign.

Import GearPages.
Local Open Scope R_scope.

Variables (kind : string) (z1 z2 : Z) (m helix width P rpm : R).
Variables (pinion_name gear_name : string) (sfb sfc Ko : R) (grade : Z).



Lemma basic_gear_design_value :
  z1 <> 0%Z -> z2 <> 0%Z -> rpm <> 0 ->
  basic_gear_design kind z1 z2 m helix width P rpm pinion_name gear_name
    sfb sfc Ko grade =
  Ok (mk_gear_params kind z1 z2 m helix width P rpm
        (IZR z2 / IZR z1) (rpm / (IZR z2 / IZR z1))
        (m * IZR z1) (m * IZR z2) ((m * IZR z1 + m * IZR z2) / 2)
        (P * 1000 * 60 / (2 * PI * rpm))
        (P * 1000 * 60 / (2 * PI * rpm) * (IZR z2 / IZR z1))
        (PI * (m * IZR z1) * rpm / (60 * 1000))
        pinion_name gear_name
        (get_material_properties pinion_name)
        (get_material_properties gear_name) sfb sfc Ko grade).
Proof.
  intros H1 H2 Hrpm. pose proof PI_RGT_0 as HPI.
  pose proof (not_0_IZR z1 H1) as Hz1. pose proof (not_0_IZR z2 H2) as Hz2.
  unfold basic_gear_design. cbv zeta.
  rewrite div_ok by exact Hz1. cbn [bind].
  rewrite div_ok.
  2:{ unfold Rdiv. apply Rmult_integral_contrapositive_currified;
      [exact Hz2 | now apply Rinv_neq_0_compat]. }
  cbn [bind].
  rewrite div_ok by nra. reflexivity.
Qed.


(** X25.  A zero tooth count on either wheel or a zero speed makes the
    design computation fail with [ZeroDivisionError]. *)
Theorem basic_gear_design_zero_division :
  z1 = 0%Z \/ z2 = 0%Z \/ rpm = 0 ->
  basic_gear_design kind z1 z2 m helix width P rpm pinion_name gear_name
    sfb sfc Ko grade = Raise ZeroDivisionError.
Proof.
  intros H. unfold basic_gear_design. cbv zeta. unfold div at 1.
  destruct (Req_dec_T (IZR z1) 0) as [E1 | N1]; [reflexivity | ].
  cbn [bind]. unfold div at 1.
  destruct (Req_dec_T (IZR z2 / IZR z1) 0) as [E2 | N2]; [reflexivity | ].
  cbn [bind].
  destruct H as [-> | [-> | ->]].
  - now elim N1.
  - elim N2. unfold Rdiv. ring.
  - replace (2 * PI * 0) with 0 by ring. now rewrite div_zero.
Qed.

End GearDesign.


Lemma basic_gear_design_zero_division_witness :
  GearPages.basic_gear_design "Spur Gear" 0 40 3 0 50 10 1500
    "AISI 4140 Steel" "AISI 1045 Steel" 2 1.5 1.25 9
  = Raise ZeroDivisionError.
Proof.
  apply basic_gear_design_zero_division. now left.
Defined.

Section GearAnalysis.

Import GearPages.
Local Open Scope R_scope.


Lemma Q2R_lewis_positive (y : Q) : (0.245 <= y)%Q -> 0.245 <= Q2R y.
Proof.
  intros H. apply Qle_Rle in H.
  replace (Q2R 0.245) with 0.245 in H; [exact H | ].
  unfold Q2R. cbn [Qnum Qden]. lra.
Qed.


End GearAnalysis.

Section GearPipeline.

Import GearPages.
Local Open Scope R_scope.

Lemma Kv_at_least_1 (v : R) :
  exists k,
    Gear.tooth_strength_Kv v = Ok k /\ Gear.contact_stress_Kv v = Ok k /\
    1 <= k.
Proof.
  destruct (Rle_dec v 5) as [Hlow | Hhigh].
  - destruct (Kv_low v Hlow) as [Ht Hc]. exists 1. repeat split; try assumption.
    lra.
  - destruct (Kv_high v ltac:(lra)) as [Ht Hc].
    eexists. split; [exact Ht | split; [exact Hc | ]].
    pose proof (sqrt_pos v).
    apply Rmult_le_reg_r with 5.56; [lra | ].
    replace ((5.56 + R_sqrt.sqrt v) / 5.56 * 5.56) with (5.56 + R_sqrt.sqrt v)
      by (field; lra).
    lra.
Qed.

(** The tooth-strength analysis returns on a record with a positive load
    and positive dimensions. *)
Lemma tooth_strength_returns (p : gear_params) :
  0 < pinion_torque p -> 0 < pinion_pitch_diameter p ->
  0 < service_factor p -> 0 < face_width p -> 0 < module p ->
  exists br,
    tooth_strength_analysis p = Done br /\
    0 < gear_bending_stress br /\ 0 < pinion_bending_stress br /\
    pinion_safety_bending br * pinion_bending_stress br
    = yield_strength (pinion_props p) /\
    gear_safety_bending br * gear_bending_stress br
    = yield_strength (gear_props p).
Proof.
  intros HT Hd HKo Hw Hm.
  destruct (lewis_bounded (pinion_teeth p)) as (yp & Hyp & Hplo & _).
  destruct (lewis_bounded (gear_teeth p)) as (yg & Hyg & Hglo & _).
  destruct (Kv_at_least_1 (pitch_line_velocity p)) as (k & Hk & _ & Hk1).
  pose proof (Q2R_lewis_positive yp Hplo) as Hp.
  pose proof (Q2R_lewis_positive yg Hglo) as Hg.
  assert (HWt : 0 < pinion_torque p * 2000 / pinion_pitch_diameter p)
    by (apply Rdiv_lt_0_compat; lra).
  set (Wt := pinion_torque p * 2000 / pinion_pitch_diameter p) in *.
  assert (Hload : 0 < Wt * service_factor p)
    by (apply Rmult_lt_0_compat; lra).
  assert (Hloadk : 0 < Wt * service_factor p * k)
    by (apply Rmult_lt_0_compat; lra).
  assert (Hnum : 0 < Wt * service_factor p * k * 1.0) by lra.
  assert (Hwm : 0 < face_width p * module p)
    by (apply Rmult_lt_0_compat; lra).
  assert (Hcp : 0 < face_width p * module p * Q2R yp)
    by (apply Rmult_lt_0_compat; lra).
  assert (Hcg : 0 < face_width p * module p * Q2R yg)
    by (apply Rmult_lt_0_compat; lra).
  assert (Hsp : 0 < Wt * service_factor p * k * 1.0
                    / (face_width p * module p * Q2R yp))
    by (apply Rdiv_lt_0_compat; assumption).
  assert (Hsg : 0 < Wt * service_factor p * k * 1.0
                    / (face_width p * module p * Q2R yg))
    by (apply Rdiv_lt_0_compat; assumption).
  unfold tooth_strength_analysis.
  rewrite Hyp, Hyg, Hk. cbn [lift bindx as_operand]. cbv zeta.
  rewrite div_ok by lra. cbn [lift bindx]. fold Wt.
  rewrite div_ok by lra. cbn [lift bindx].
  rewrite div_ok by lra. cbn [lift bindx].
  rewrite div_ok by lra. cbn [lift bindx].
  rewrite div_ok by lra. cbn [lift bindx].
  eexists. split; [reflexivity | ].
  cbn [gear_bending_stress pinion_bending_stress pinion_safety_bending
       gear_safety_bending].
  split; [exact Hsg | ]. split; [exact Hsp | ].
  split; field; repeat split; lra.
Qed.

Lemma elastic_coefficient_symmetric (E1 nu1 E2 nu2 : R) :
  elastic_coefficient_of E1 nu1 E2 nu2 = elastic_coefficient_of E2 nu2 E1 nu1.
Proof.
  unfold elastic_coefficient_of, div.
  destruct (Req_dec_T E1 0), (Req_dec_T E2 0); cbn [bind]; try reflexivity.
  now rewrite (Rplus_comm ((1 - nu2 ^ 2) / E2)).
Qed.

Lemma elastic_coefficient_positive (E1 nu1 E2 nu2 : R) :
  0 < E1 -> 0 < E2 -> -1 < nu1 < 1 -> -1 < nu2 < 1 ->
  exists Cp, elastic_coefficient_of E1 nu1 E2 nu2 = Ok Cp /\ 0 < Cp.
Proof.
  intros HE1 HE2 Hn1 Hn2. pose proof PI_RGT_0 as HPI.
  assert (H1 : 0 < (1 - nu1 ^ 2) / E1) by (apply Rdiv_lt_0_compat; nra).
  assert (H2 : 0 < (1 - nu2 ^ 2) / E2) by (apply Rdiv_lt_0_compat; nra).
  assert (Hsum : 0 < PI * ((1 - nu1 ^ 2) / E1 + (1 - nu2 ^ 2) / E2))
    by (apply Rmult_lt_0_compat; lra).
  assert (Hq : 0 < 1 / (PI * ((1 - nu1 ^ 2) / E1 + (1 - nu2 ^ 2) / E2)))
    by (apply Rdiv_lt_0_compat; lra).
  unfold elastic_coefficient_of.
  rewrite div_ok by lra. cbn [bind].
  rewrite div_ok by lra. cbn [bind].
  rewrite div_ok by lra. cbn [bind].
  rewrite sqrt_ok by lra. eexists. split; [reflexivity | ].
  now apply sqrt_lt_R0.
Qed.

(** X28.  The contact analysis does not depend on which wheel has which
    material: exchanging the two materials leaves the load, the geometry
    factor, the elastic coefficient and the contact stress as they were
    and exchanges the two safety factors. *)
Theorem contact_analysis_material_symmetry (p : gear_params) :
  contact_stress_analysis (swap_materials p) =
  match contact_stress_analysis p with
  | Ok cr =>
      Ok (mk_contact_results (transmitted_load cr) (geometry_factor cr)
            (elastic_coefficient cr) (contact_stress cr)
            (gear_safety_contact cr) (pinion_safety_contact cr))
  | Raise e => Raise e
  end.
Proof.
  unfold contact_stress_analysis.
  cbn [swap_materials pinion_torque pinion_pitch_diameter pitch_line_velocity
       helix_angle gear_ratio pinion_props gear_props service_factor
       face_width].
  rewrite (elastic_coefficient_symmetric
             (elastic_modulus (gear_props p)) (poisson_ratio (gear_props p))).
  destruct (div (pinion_torque p * 2000) (pinion_pitch_diameter p))
    as [Wt | e]; cbn [bind]; [ | reflexivity].
  destruct (Gear.contact_stress_Kv (pitch_line_velocity p)) as [Kv | e];
    cbn [bind]; [ | reflexivity].
  destruct (Gear.contact_geometry_factor (helix_angle p) (gear_ratio p))
    as [I_ | e]; cbn [bind]; [ | reflexivity].
  destruct (elastic_coefficient_of _ _ _ _) as [Cp | e];
    cbn [bind]; [ | reflexivity].
  destruct (div (Wt * service_factor p * Kv) _) as [q | e];
    cbn [bind]; [ | reflexivity].
  destruct (Py.sqrt q) as [root | e]; cbn [bind]; [ | reflexivity].
  unfold div.
  destruct (Req_dec_T (Cp * root / 1e6) 0); cbn [bind]; reflexivity.
Qed.

(** The contact analysis returns on a record with a positive load,
    positive dimensions and sound materials. *)
Lemma contact_stress_returns (p : gear_params) :
  0 < pinion_torque p -> 0 < pinion_pitch_diameter p ->
  0 < service_factor p -> 0 < face_width p ->
  0 <= helix_angle p <= 45 -> 0 < gear_ratio p ->
  0 < elastic_modulus (pinion_props p) -> 0 < elastic_modulus (gear_props p) ->
  -1 < poisson_ratio (pinion_props p) < 1 ->
  -1 < poisson_ratio (gear_props p) < 1 ->
  exists cr,
    contact_stress_analysis p = Ok cr /\ 0 < contact_stress cr /\
    pinion_safety_contact cr * contact_stress cr
    = 2.8 * yield_strength (pinion_props p) /\
    gear_safety_contact cr * contact_stress cr
    = 2.8 * yield_strength (gear_props p).
Proof.
  intros HT Hd HKo Hw Hh Hr HE1 HE2 Hn1 Hn2.
  destruct (Kv_at_least_1 (pitch_line_velocity p)) as (k & _ & Hk & Hk1).
  destruct (geometry_formula_positive (helix_angle p) (gear_ratio p) Hh Hr)
    as [Hf HI].
  pose proof (geometry_factor_guard_cases _ _ _ Hf) as HI_.
  destruct (Rle_dec _ 0) as [L | _] in HI_; [lra | ].
  destruct (elastic_coefficient_positive _ _ _ _ HE1 HE2 Hn1 Hn2)
    as (Cp & HCp & HCpos).
  assert (HWt : 0 < pinion_torque p * 2000 / pinion_pitch_diameter p)
    by (apply Rdiv_lt_0_compat; lra).
  set (Wt := pinion_torque p * 2000 / pinion_pitch_diameter p) in *.
  set (I_ := cos (radians (helix_angle p)) * sin (radians 20) / 2
             * (gear_ratio p / (gear_ratio p + 1))) in *.
  assert (Hload : 0 < Wt * service_factor p)
    by (apply Rmult_lt_0_compat; lra).
  assert (Hnum : 0 < Wt * service_factor p * k)
    by (apply Rmult_lt_0_compat; lra).
  assert (Hwd : 0 < face_width p * pinion_pitch_diameter p)
    by (apply Rmult_lt_0_compat; lra).
  assert (Hden : 0 < face_width p * pinion_pitch_diameter p * I_)
    by (apply Rmult_lt_0_compat; assumption).
  assert (Hq : 0 < Wt * service_factor p * k
                   / (face_width p * pinion_pitch_diameter p * I_))
    by (apply Rdiv_lt_0_compat; assumption).
  pose proof (sqrt_lt_R0 _ Hq) as Hroot.
  assert (Hstress : 0 < Cp * R_sqrt.sqrt
                           (Wt * service_factor p * k
                            / (face_width p * pinion_pitch_diameter p * I_)))
    by (apply Rmult_lt_0_compat; assumption).
  unfold contact_stress_analysis.
  rewrite div_ok by lra. cbn [bind]. fold Wt.
  rewrite Hk. cbn [bind]. rewrite HI_. cbn [bind]. rewrite HCp. cbn [bind].
  rewrite div_ok by lra. cbn [bind].
  rewrite sqrt_ok by lra. cbn [bind]. cbv zeta.
  rewrite div_ok by lra. cbn [bind].
  rewrite div_ok by lra. cbn [bind].
  eexists. split; [reflexivity | ].
  cbn [contact_stress pinion_safety_contact gear_safety_contact].
  split; [exact Hstress | ].
  split; field; lra.
Qed.

End GearPipeline.

Section GearPipelineTotal.

Import GearPages.
Local Open Scope R_scope.

Lemma material_constants_sound (name : string) :
  0 < yield_strength (get_material_properties name) /\
  0 < elastic_modulus (get_material_properties name) /\
  -1 < poisson_ratio (get_material_properties name) < 1.
Proof.
  pose proof catalogue_sound as Hall. rewrite Forall_forall in Hall.
  destruct (Hall _ (material_from_catalogue name))
    as (Hy & _ & HE & Hnu & _).
  repeat split; lra.
Qed.

(** X29.  For inputs above the minima that the widgets of the gear page
    set and below bounds that keep every intermediate result within the
    range of the floats (12 to 1000000 teeth on each wheel, module from
    0.5 to 1000, helix angle from 0 to 45 degrees, face width from 5 to
    1e6, power from 0.1 to 1e9, speed from 1 to 1e6, service factor from
    1 to 1000, any two material names) the design computation, the
    tooth-strength analysis and the contact analysis all return without
    an error, with positive stresses and positive safety factors. *)
Theorem gear_pipeline_total
    (kind : string) (z1 z2 : Z) (m helix width P rpm : R)
    (pinion_name gear_name : string) (sfb sfc Ko : R) (grade : Z) :
  (12 <= z1 <= 1000000)%Z -> (12 <= z2 <= 1000000)%Z ->
  0.5 <= m <= 1000 -> 0 <= helix <= 45 ->
  5 <= width <= 1e6 -> 0.1 <= P <= 1e9 -> 1 <= rpm <= 1e6 ->
  1 <= Ko <= 1000 ->
  exists p br cr,
    basic_gear_design kind z1 z2 m helix width P rpm pinion_name gear_name
      sfb sfc Ko grade = Ok p /\
    tooth_strength_analysis p = Done br /\
    contact_stress_analysis p = Ok cr /\
    0 < pinion_bending_stress br /\ 0 < gear_bending_stress br /\
    0 < contact_stress cr /\
    0 < pinion_safety_bending br /\ 0 < gear_safety_bending br /\
    0 < pinion_safety_contact cr /\ 0 < gear_safety_contact cr.
Proof.
  intros [H1 _] [H2 _] [Hm _] Hh [Hw _] [HP _] [Hrpm _] [HKo _].
  pose proof PI_RGT_0 as HPI.
  assert (Hz1 : 12 <= IZR z1) by (apply IZR_le; exact H1).
  assert (Hz2 : 12 <= IZR z2) by (apply IZR_le; exact H2).
  destruct (material_constants_sound pinion_name) as (Hyp & HEp & Hnp).
  destruct (material_constants_sound gear_name) as (Hyg & HEg & Hng).
  eexists.
  assert (Htorque : 0 < P * 1000 * 60 / (2 * PI * rpm)).
  { apply Rdiv_lt_0_compat; [lra | ].
    apply Rmult_lt_0_compat; lra. }
  assert (Hd1 : 0 < m * IZR z1) by (apply Rmult_lt_0_compat; lra).
  assert (Hratio : 0 < IZR z2 / IZR z1) by (apply Rdiv_lt_0_compat; lra).
  match goal with |- exists br cr, ?b = Ok ?p /\ _ =>
    assert (Hbasic : b = Ok p)
      by (apply basic_gear_design_value; [lia | lia | lra])
  end.
  match type of Hbasic with _ = Ok ?p =>
    destruct (tooth_strength_returns p) as (br & Hbr & Hsg & Hsp & Hfp & Hfg);
      [exact Htorque | exact Hd1 | cbn; lra | cbn; lra | cbn; lra | ];
    destruct (contact_stress_returns p)
      as (cr & Hcr & Hsc & Hcp & Hcg);
      [exact Htorque | exact Hd1 | cbn; lra | cbn; lra | exact Hh
       | exact Hratio | exact HEp | exact HEg | exact Hnp | exact Hng | ]
  end.
  exists br, cr.
  cbn [pinion_props gear_props] in Hfp, Hfg, Hcp, Hcg.
  split; [exact Hbasic | ]. split; [exact Hbr | ]. split; [exact Hcr | ].
  repeat split; try assumption; nra.
Qed.

Lemma gear_pipeline_total_witness :
  exists p br cr,
    basic_gear_design "Helical Gear" 20 40 3 20 50 10 1500
      "AISI 4140 Steel" "AISI 1045 Steel" 2 1.5 1.25 9 = Ok p /\
    tooth_strength_analysis p = Done br /\
    contact_stress_analysis p = Ok cr /\
    0 < pinion_bending_stress br /\ 0 < gear_bending_stress br /\
    0 < contact_stress cr /\
    0 < pinion_safety_bending br /\ 0 < gear_safety_bending br /\
    0 < pinion_safety_contact cr /\ 0 < gear_safety_contact cr.
Proof.
  apply gear_pipeline_total; try lia; lra.
Defined.



End GearPipelineTotal.
